(** * Daily Review: the review front end (src/App.tsx) and the scan contract

    The development embeds the React component [App] of [src/App.tsx]:
    its state, the closures [generatePrompt], [addGitPath],
    [removeGitPath], [handleAddLog], [handleSyncGit] and [handleAiReview],
    and the effects they perform ([invoke], [alert], the state setters).
    The commands behind [invoke] run in the Tauri back end; the part of
    it the properties below talk about (the repository scan and the diff
    summariser) is given in [Module Scan], written after the design
    document. *)

From Stdlib Require Import Ascii String DecimalString.
From Stdlib Require Import List Bool Arith NArith ZArith Lia.
Import ListNotations.

Set Implicit Arguments.

(* ===================================================================== *)
(** ** JavaScript strings *)
(* ===================================================================== *)

(** A JavaScript string is a finite sequence of UTF-16 code units.  A code
    unit is kept as an [N]; the literals of the source are ASCII and are
    written with [lit]. *)
Definition codeunit := N.
Definition jsstring := list codeunit.

Definition lit (s : String.string) : jsstring :=
  map N_of_ascii (String.list_ascii_of_string s).
Arguments lit s%_string.

Definition LF : jsstring := [10%N].

(** [a === b] on strings. *)
Fixpoint str_eqb (a b : jsstring) : bool :=
  match a, b with
  | [], [] => true
  | x :: a', y :: b' => N.eqb x y && str_eqb a' b'
  | _, _ => false
  end.

(** A string used as a condition: only the empty string is falsy. *)
Definition truthy (s : jsstring) : bool :=
  match s with
  | [] => false
  | _ :: _ => true
  end.

(** [xs.join(sep)] on an array of strings. *)
Fixpoint join (sep : jsstring) (xs : list jsstring) : jsstring :=
  match xs with
  | [] => []
  | [x] => x
  | x :: rest => x ++ sep ++ join sep rest
  end.

(** [xs.includes(x)] on an array of strings. *)
Definition includes (xs : list jsstring) (x : jsstring) : bool :=
  existsb (str_eqb x) xs.

(** [s.substring(0, n)]. *)
Definition substring0 (n : nat) (s : jsstring) : jsstring := firstn n s.

(** [String(n)] for an array length. *)
Definition string_of_nat (n : nat) : jsstring :=
  lit (DecimalString.NilEmpty.string_of_uint (Nat.to_uint n)).

(** The code units [String.prototype.trim] strips: ECMAScript's WhiteSpace
    (TAB, VT, FF, SP, NBSP, ZWNBSP and the Unicode space separators) and
    LineTerminator (LF, CR, LS, PS). *)
Definition isWhiteSpace (c : codeunit) : bool :=
  (N.eqb c 0x09 || N.eqb c 0x0A || N.eqb c 0x0B || N.eqb c 0x0C ||
   N.eqb c 0x0D || N.eqb c 0x20 || N.eqb c 0xA0 || N.eqb c 0x1680 ||
   (N.leb 0x2000 c && N.leb c 0x200A) ||
   N.eqb c 0x2028 || N.eqb c 0x2029 || N.eqb c 0x202F ||
   N.eqb c 0x205F || N.eqb c 0x3000 || N.eqb c 0xFEFF)%N.

Fixpoint trimStart (s : jsstring) : jsstring :=
  match s with
  | [] => []
  | c :: rest => if isWhiteSpace c then trimStart rest else s
  end.

Definition trimEnd (s : jsstring) : jsstring := rev (trimStart (rev s)).

Definition trim (s : jsstring) : jsstring := trimEnd (trimStart s).

(* ===================================================================== *)
(** ** The data of App.tsx *)
(* ===================================================================== *)

Record LogItem := {
  id : option Z;
  content : jsstring;
  log_type : jsstring;
  timestamp : jsstring
}.

Record GitCommit := {
  hash : jsstring;
  message : jsstring;
  author : jsstring;
  time : Z;
  repo_name : option jsstring;
  diff : option jsstring
}.

Record AppConfig := {
  api_key : jsstring;
  git_paths : list jsstring;
  provider : jsstring;
  model : jsstring;
  base_url : option jsstring;
  custom_rules : jsstring;
  report_template : jsstring;
  deep_analysis : bool
}.

Inductive Tab := log | review | settings.

Inductive ReviewMode := analysis | export.

(** The [useState] cells of the component. *)
Record AppState := {
  activeTab : Tab;
  logs : list LogItem;
  gitLogs : list GitCommit;
  newLog : jsstring;
  config : AppConfig;
  newGitPath : jsstring;
  reviewResult : jsstring;
  reviewMode : ReviewMode;
  isAiLoading : bool
}.

(** The state of the first render. *)
Definition initialState : AppState := {|
  activeTab := log;
  logs := [];
  gitLogs := [];
  newLog := [];
  config := {| api_key := []; git_paths := []; provider := lit "openai";
               model := lit "gpt-4o"; base_url := None; custom_rules := [];
               report_template := []; deep_analysis := false |};
  newGitPath := [];
  reviewResult := [];
  reviewMode := analysis;
  isAiLoading := false
|}.

(** The request object handed to the [call_ai] command. *)
Record AiRequest := {
  req_provider : jsstring;
  req_api_key : jsstring;
  req_model : jsstring;
  req_prompt : jsstring;
  req_base_url : option jsstring
}.

(* ===================================================================== *)
(** ** Effects: the Tauri commands, [alert] and the state setters *)
(* ===================================================================== *)

(** The commands the component sends with [invoke]. *)
Inductive Command :=
| get_today_logs
| save_log (content logType : jsstring)
| scan_git_repos (paths : list jsstring) (deepAnalysis : bool)
| call_ai (request : AiRequest).

(** What a run of a handler does to the outside, in order. *)
Inductive Event :=
| EInvoke (c : Command)
| EAlert (msg : jsstring)
| EConsoleError (e : jsstring).

(** The promise returned by [invoke] resolves with a value or rejects with
    an error; [e] is the error as [+] converts it to a string. *)
Inductive Reply (A : Type) :=
| Resolved (v : A)
| Rejected (e : jsstring).
Arguments Resolved {A} v.
Arguments Rejected {A} e.

(** The back end as the component sees it: the reply to each command, which
    may depend on everything that happened before (the log store and the
    repositories change). *)
Record Backend := {
  reply_get_today_logs : list Event -> Reply (list LogItem);
  reply_save_log : list Event -> jsstring -> jsstring -> Reply unit;
  reply_scan_git_repos :
    list Event -> list jsstring -> bool -> Reply (list GitCommit);
  reply_call_ai : list Event -> AiRequest -> Reply jsstring
}.

(** A handler runs on the pending component state and the trace of events
    so far. *)
Record World := {
  w_state : AppState;
  w_trace : list Event
}.

Definition App (A : Type) : Type := World -> A * World.

Definition ret {A} (a : A) : App A := fun w => (a, w).

Definition bind {A B} (m : App A) (k : A -> App B) : App B :=
  fun w => let (a, w') := m w in k a w'.

Declare Scope app_scope.
Delimit Scope app_scope with app.
Notation "x <- m ;; k" := (bind m (fun x => k))
  (at level 61, m at next level, right associativity) : app_scope.
Notation "m ;; k" := (bind m (fun _ => k))
  (at level 61, right associativity) : app_scope.
Open Scope app_scope.

Definition emit (e : Event) : App unit :=
  fun w => (tt, {| w_state := w_state w; w_trace := w_trace w ++ [e] |}).

Definition modify (f : AppState -> AppState) : App unit :=
  fun w => (tt, {| w_state := f (w_state w); w_trace := w_trace w |}).

Definition alert (msg : jsstring) : App unit := emit (EAlert msg).

Definition console_error (e : jsstring) : App unit :=
  emit (EConsoleError e).

(** [await invoke(c)]: the command is sent and the back end's reply, which
    [reply] computes from the trace so far, comes back.  A handler is run
    to its end in one piece: no other handler runs while it awaits. *)
Definition invoke {A} (c : Command) (reply : list Event -> Reply A)
  : App (Reply A) :=
  fun w => bind (emit (EInvoke c)) (fun _ => ret (reply (w_trace w))) w.

(** The setters of the [useState] cells the handlers write. *)
Definition setActiveTab (v : Tab) : App unit :=
  modify (fun s =>
    {| activeTab := v; logs := logs s; gitLogs := gitLogs s;
       newLog := newLog s; config := config s; newGitPath := newGitPath s;
       reviewResult := reviewResult s; reviewMode := reviewMode s;
       isAiLoading := isAiLoading s |}).

Definition setLogs (v : list LogItem) : App unit :=
  modify (fun s =>
    {| activeTab := activeTab s; logs := v; gitLogs := gitLogs s;
       newLog := newLog s; config := config s; newGitPath := newGitPath s;
       reviewResult := reviewResult s; reviewMode := reviewMode s;
       isAiLoading := isAiLoading s |}).

Definition setGitLogs (v : list GitCommit) : App unit :=
  modify (fun s =>
    {| activeTab := activeTab s; logs := logs s; gitLogs := v;
       newLog := newLog s; config := config s; newGitPath := newGitPath s;
       reviewResult := reviewResult s; reviewMode := reviewMode s;
       isAiLoading := isAiLoading s |}).

Definition setNewLog (v : jsstring) : App unit :=
  modify (fun s =>
    {| activeTab := activeTab s; logs := logs s; gitLogs := gitLogs s;
       newLog := v; config := config s; newGitPath := newGitPath s;
       reviewResult := reviewResult s; reviewMode := reviewMode s;
       isAiLoading := isAiLoading s |}).

(** [setConfig(prev => f(prev))]. *)
Definition setConfig (f : AppConfig -> AppConfig) : App unit :=
  modify (fun s =>
    {| activeTab := activeTab s; logs := logs s; gitLogs := gitLogs s;
       newLog := newLog s; config := f (config s);
       newGitPath := newGitPath s; reviewResult := reviewResult s;
       reviewMode := reviewMode s; isAiLoading := isAiLoading s |}).

Definition setNewGitPath (v : jsstring) : App unit :=
  modify (fun s =>
    {| activeTab := activeTab s; logs := logs s; gitLogs := gitLogs s;
       newLog := newLog s; config := config s; newGitPath := v;
       reviewResult := reviewResult s; reviewMode := reviewMode s;
       isAiLoading := isAiLoading s |}).

Definition setReviewResult (v : jsstring) : App unit :=
  modify (fun s =>
    {| activeTab := activeTab s; logs := logs s; gitLogs := gitLogs s;
       newLog := newLog s; config := config s; newGitPath := newGitPath s;
       reviewResult := v; reviewMode := reviewMode s;
       isAiLoading := isAiLoading s |}).

Definition setReviewMode (v : ReviewMode) : App unit :=
  modify (fun s =>
    {| activeTab := activeTab s; logs := logs s; gitLogs := gitLogs s;
       newLog := newLog s; config := config s; newGitPath := newGitPath s;
       reviewResult := reviewResult s; reviewMode := v;
       isAiLoading := isAiLoading s |}).

Definition setIsAiLoading (v : bool) : App unit :=
  modify (fun s =>
    {| activeTab := activeTab s; logs := logs s; gitLogs := gitLogs s;
       newLog := newLog s; config := config s; newGitPath := newGitPath s;
       reviewResult := reviewResult s; reviewMode := reviewMode s;
       isAiLoading := v |}).

(** [{ ...prev, git_paths: value }], the one key [updateConfig] is called
    with by the closures embedded here. *)
Definition with_git_paths (value : list jsstring) (prev : AppConfig)
  : AppConfig :=
  {| api_key := api_key prev; git_paths := value;
     provider := provider prev; model := model prev;
     base_url := base_url prev; custom_rules := custom_rules prev;
     report_template := report_template prev;
     deep_analysis := deep_analysis prev |}.

(* ===================================================================== *)
(** ** The closures of the component *)
(* ===================================================================== *)

Section Closures.

(** The back end answering [invoke]. *)
Variable backend : Backend.

(** The values of the state cells in the render whose closures run: a
    closure reads [logs], [gitLogs], [newLog], [config] and [newGitPath]
    from here, while the setters act on the pending state. *)
Variable s : AppState.

Definition invoke_get_today_logs : App (Reply (list LogItem)) :=
  invoke get_today_logs (reply_get_today_logs backend).

Definition invoke_save_log (content logType : jsstring)
  : App (Reply unit) :=
  invoke (save_log content logType)
    (fun t => reply_save_log backend t content logType).

Definition invoke_scan_git_repos (paths : list jsstring)
    (deepAnalysis : bool) : App (Reply (list GitCommit)) :=
  invoke (scan_git_repos paths deepAnalysis)
    (fun t => reply_scan_git_repos backend t paths deepAnalysis).

Definition invoke_call_ai (request : AiRequest) : App (Reply jsstring) :=
  invoke (call_ai request) (fun t => reply_call_ai backend t request).

(** [loadLogs]: a failure is written to the console. *)
Definition loadLogs : App unit :=
  r <- invoke_get_today_logs ;;
  match r with
  | Resolved todayLogs => setLogs todayLogs
  | Rejected e => console_error e
  end.

(** [updateConfig('git_paths', value)]. *)
Definition updateConfig_git_paths (value : list jsstring) : App unit :=
  setConfig (with_git_paths value).

Definition addGitPath : App unit :=
  if truthy (newGitPath s)
     && negb (includes (git_paths (config s)) (newGitPath s))
  then
    updateConfig_git_paths (git_paths (config s) ++ [newGitPath s]) ;;
    setNewGitPath []
  else ret tt.

Definition removeGitPath (pathToRemove : jsstring) : App unit :=
  updateConfig_git_paths
    (filter (fun p => negb (str_eqb p pathToRemove))
            (git_paths (config s))).

Definition handleAddLog : App unit :=
  if negb (truthy (trim (newLog s))) then ret tt
  else
    r <- invoke_save_log (newLog s) (lit "manual") ;;
    match r with
    | Resolved _ => setNewLog [] ;; loadLogs
    | Rejected e => alert (lit "Failed to save log: " ++ e)
    end.

Definition handleSyncGit : App unit :=
  if Nat.eqb (length (git_paths (config s))) 0 then
    alert (lit "Please configure Git Repo Paths in Settings first.") ;;
    setActiveTab settings
  else
    r <- invoke_scan_git_repos (git_paths (config s))
           (deep_analysis (config s)) ;;
    match r with
    | Resolved commits =>
        setGitLogs commits ;;
        if deep_analysis (config s) then
          alert (lit "Synced " ++ string_of_nat (length commits)
                 ++ lit " commits with deep analysis.")
        else ret tt
    | Rejected e => alert (lit "Git Sync Failed: " ++ e)
    end.

(** The text of one manual log in the prompt. *)
Definition logLine (l : LogItem) : jsstring := lit "- " ++ content l.

(** [`${g.repo_name}`]: an absent name prints as [undefined]. *)
Definition show_repo_name (g : GitCommit) : jsstring :=
  match repo_name g with
  | Some n => n
  | None => lit "undefined"
  end.

(** [if (g.diff)]: the diff is set and is not the empty string. *)
Definition diff_truthy (g : GitCommit) : option jsstring :=
  match diff g with
  | Some d => if truthy d then Some d else None
  | None => None
  end.

(** The text of one commit in the prompt. *)
Definition gitLine (g : GitCommit) : jsstring :=
  let text := lit "- [" ++ show_repo_name g ++ lit "] " ++ message g in
  match diff_truthy g with
  | Some d =>
      text ++ (LF ++ lit "  Code Diff Summary:" ++ LF ++ lit "```" ++ LF
               ++ d ++ LF ++ lit "```")
  | None => text
  end.

Definition baseInstruction (type : ReviewMode) : jsstring :=
  match type with
  | analysis =>
      lit "Provide a comprehensive summary, 3 improvements, and 1 key knowledge point. If code diffs are provided, use them to explain technical details."
  | export =>
      lit "Strictly follow the format below:" ++ LF ++ LF
      ++ lit "Format Template:" ++ LF ++ report_template (config s)
  end.

Definition generatePrompt (type : ReviewMode) : jsstring :=
  let logsText := join LF (map logLine (logs s)) in
  let gitText := join LF (map gitLine (gitLogs s)) in
  LF ++
  lit "        Context:" ++ LF ++
  lit "        Manual Logs:" ++ LF ++
  lit "        " ++ logsText ++ LF ++
  lit "        " ++ LF ++
  lit "        Git Commits:" ++ LF ++
  lit "        " ++ gitText ++ LF ++
  lit "        " ++ LF ++
  lit "        System Instruction:" ++ LF ++
  lit "        " ++ baseInstruction type ++ LF ++
  lit "        " ++ LF ++
  lit "        Additional User Rules:" ++ LF ++
  lit "        " ++ custom_rules (config s) ++ LF ++
  lit "      ".

Definition handleAiReview (mode : ReviewMode) : App unit :=
  if negb (truthy (api_key (config s))) then
    alert (lit "Please configure API Key in Settings first.") ;;
    setActiveTab settings
  else
    setReviewMode mode ;;
    setIsAiLoading true ;;
    r <- invoke_call_ai
           {| req_provider := provider (config s);
              req_api_key := api_key (config s);
              req_model := model (config s);
              req_prompt := generatePrompt mode;
              req_base_url := base_url (config s) |} ;;
    match r with
    | Resolved response => setReviewResult response
    | Rejected e => alert (lit "AI Action Failed: " ++ e)
    end ;;
    setIsAiLoading false.

(** The preview of a commit's diff in the activity list:
    [commit.diff && commit.diff.substring(0, 150) + "..."]. *)
Definition diffPreview (commit : GitCommit) : option jsstring :=
  match diff_truthy commit with
  | Some d => Some (substring0 150 d ++ lit "...")
  | None => None
  end.

End Closures.

(** A user action: the closure of the current render runs on the world. *)
Definition run (h : AppState -> App unit) (w : World) : World :=
  snd (h (w_state w) w).

(** Typing into the repository path field: [onChange] of the input. *)
Definition typeGitPath (v : jsstring) (_ : AppState) : App unit :=
  setNewGitPath v.

(** Typing into the note field. *)
Definition typeNewLog (v : jsstring) (_ : AppState) : App unit :=
  setNewLog v.

(* ===================================================================== *)
(** ** The scan behind [scan_git_repos] *)
(* ===================================================================== *)

Module Scan.

(** Modelled from the spec: what the Diff Summarizer finds when it
    compares a commit with its parent.  The Rust back end that walks the
    repositories (the [scan_git_repos] command) is missing from the
    sources; the design document stands in for it throughout this
    module. *)
Inductive Change :=
| InitialCommit                  (* root commit, no parent *)
| TextDiff (text : jsstring)     (* unified diff against the parent *)
| BinaryContent                  (* binary or unreadable content *)
| DiffFailure.                   (* the diff could not be produced *)

(** Modelled from the spec: a commit as the history of a repository holds
    it, before the scan turns it into a [GitCommit] (the back end's commit
    walk is missing). *)
Record RepoCommit := {
  rc_hash : jsstring;
  rc_message : jsstring;
  rc_author : jsstring;
  rc_time : Z;
  rc_change : Change
}.

(** Modelled from the spec: an opened repository (the back end's handle is
    missing): its identity, its display name and the history reachable from
    the checked-out branch tip. *)
Record Repository := {
  identity : jsstring;
  display_name : jsstring;
  history : list RepoCommit
}.

(** Modelled from the spec: the outcome of the Repository Walker on a path
    (the walker is missing). *)
Inductive OpenResult :=
| Opened (r : Repository)
| RepositoryNotFound
| RepositoryCorrupt.

(** Modelled from the spec: the ActivityWindow, the half-open interval
    [[start, stop)] of commit timestamps (its type is missing). *)
Record ActivityWindow := {
  start : Z;
  stop : Z
}.

(** Modelled from the spec: membership in the window (missing): the start
    is included, the end is not. *)
Definition in_window (w : ActivityWindow) (t : Z) : bool :=
  (start w <=? t)%Z && (t <? stop w)%Z.

(** Modelled from the spec: a commit of the merged feed together with the
    identity of the repository that owns it (the aggregator's working
    record is missing). *)
Record Scanned := {
  owner : jsstring;
  commit : GitCommit
}.

(** Modelled from the spec: the warning recorded for a path that could not
    be opened (missing). *)
Record Warning := {
  warn_path : jsstring;
  warn_result : OpenResult
}.

(** Modelled from the spec: the lexical order on hashes (the comparison of
    the back end is missing), by code unit. *)
Fixpoint str_leb (a b : jsstring) : bool :=
  match a, b with
  | [], _ => true
  | _ :: _, [] => false
  | x :: a', y :: b' => N.ltb x y || (N.eqb x y && str_leb a' b')
  end.

(** Modelled from the spec: the order of the feed (missing): timestamp
    descending, ties broken by hash. *)
Definition before (t1 : Z) (h1 : jsstring) (t2 : Z) (h2 : jsstring)
  : bool :=
  (t2 <? t1)%Z || ((t1 =? t2)%Z && str_leb h1 h2).

Definition feed_before (a b : Scanned) : bool :=
  before (time (commit a)) (hash (commit a))
         (time (commit b)) (hash (commit b)).

(** Modelled from the spec: the sort of the feed (the back end's sort is
    missing), as a stable insertion sort. *)
Section Sorting.
Variable A : Type.
Variable le : A -> A -> bool.

Fixpoint insert (x : A) (l : list A) : list A :=
  match l with
  | [] => [x]
  | y :: r => if le x y then x :: l else y :: insert x r
  end.

Fixpoint sort (l : list A) : list A :=
  match l with
  | [] => []
  | x :: r => insert x (sort r)
  end.
End Sorting.

(** Modelled from the spec: the key commits are unique by (missing): the
    pair (repository identity, hash). *)
Definition key (x : Scanned) : jsstring * jsstring :=
  (owner x, hash (commit x)).

Definition key_eqb (a b : jsstring * jsstring) : bool :=
  str_eqb (fst a) (fst b) && str_eqb (snd a) (snd b).

(** Modelled from the spec: step 5 of the Activity Aggregator (missing),
    keeping the first occurrence of every key; [seen] holds the keys
    already kept. *)
Fixpoint dedup (seen : list (jsstring * jsstring)) (l : list Scanned)
  : list Scanned :=
  match l with
  | [] => []
  | x :: r =>
      if existsb (key_eqb (key x)) seen then dedup seen r
      else x :: dedup (key x :: seen) r
  end.

Section Aggregator.

(** The policy constants of the Diff Summarizer: the maximum character
    count and the text that marks a cut. *)
Variable max_diff_chars : nat.
Variable truncation_marker : jsstring.

(** The repositories on disk, as the Repository Walker finds them. *)
Variable open_repository : jsstring -> OpenResult.

(** Modelled from the spec: the size bound of the Diff Summarizer
    (missing): a longer text is cut to the maximum and the cut is marked. *)
Definition truncate (text : jsstring) : jsstring :=
  if length text <=? max_diff_chars then text
  else firstn max_diff_chars text ++ truncation_marker.

(** Modelled from the spec: the summary of the Diff Summarizer (missing)
    before the size bound is applied: the diff, one of the two fixed
    sentinels, or no diff available. *)
Definition diff_text (c : Change) : option jsstring :=
  match c with
  | InitialCommit => Some (lit "initial commit")
  | TextDiff text => Some text
  | BinaryContent => Some (lit "binary file changed")
  | DiffFailure => None
  end.

(** Modelled from the spec: the Diff Summarizer (missing). *)
Definition summarize_diff (c : RepoCommit) : option jsstring :=
  option_map truncate (diff_text (rc_change c)).

(** Modelled from the spec: the Commit Extractor (missing): the commits of
    the history inside the window, in feed order. *)
Definition extract (r : Repository) (w : ActivityWindow)
  : list RepoCommit :=
  sort (fun a b => before (rc_time a) (rc_hash a) (rc_time b) (rc_hash b))
       (filter (fun c => in_window w (rc_time c)) (history r)).

(** Modelled from the spec: step 3 of the Activity Aggregator (missing):
    the record handed to the caller, the diff attached under deep analysis
    and left unset without it. *)
Definition to_commit (r : Repository) (deepAnalysis : bool)
    (c : RepoCommit) : Scanned :=
  {| owner := identity r;
     commit := {| hash := rc_hash c; message := rc_message c;
                  author := rc_author c; time := rc_time c;
                  repo_name := Some (display_name r);
                  diff := if deepAnalysis then summarize_diff c
                          else None |} |}.

(** Modelled from the spec: steps 1 to 3 of the Activity Aggregator
    (missing) for one configured path: a path that does not open gives a
    warning and no commit. *)
Definition scan_path (w : ActivityWindow) (deepAnalysis : bool)
    (path : jsstring) : list Scanned * list Warning :=
  match open_repository path with
  | Opened r => (map (to_commit r deepAnalysis) (extract r w), [])
  | failure => ([], [{| warn_path := path; warn_result := failure |}])
  end.

(** Modelled from the spec: the Activity Aggregator (missing), steps 1 to
    5: scan every path in the configured order, concatenate, sort,
    deduplicate. *)
Definition aggregate (paths : list jsstring) (w : ActivityWindow)
    (deepAnalysis : bool) : list Scanned * list Warning :=
  let per_path := map (scan_path w deepAnalysis) paths in
  let merged := concat (map fst per_path) in
  let sorted := sort feed_before merged in
  (dedup [] sorted, concat (map snd per_path)).

(** Modelled from the spec: the [scan] operation exposed to the front end
    (missing): the commits of the feed and the warnings. *)
Definition scan (paths : list jsstring) (w : ActivityWindow)
    (deepAnalysis : bool) : list GitCommit * list Warning :=
  let (feed, warnings) := aggregate paths w deepAnalysis in
  (map commit feed, warnings).

End Aggregator.

(** The commit with its diff field unset. *)
Definition without_diff (g : GitCommit) : GitCommit :=
  {| hash := hash g; message := message g; author := author g;
     time := time g; repo_name := repo_name g; diff := None |}.

Definition strip (x : Scanned) : Scanned :=
  {| owner := owner x; commit := without_diff (commit x) |}.

(** The commits of a feed owned by the repository [i]. *)
Definition owned_by (i : jsstring) (feed : list Scanned) : list Scanned :=
  filter (fun x => str_eqb (owner x) i) feed.

End Scan.

(* ===================================================================== *)
(** ** The prompt layout of the design document *)
(* ===================================================================== *)

(** The sections of the prompt as the design document lists them, over the
    inputs of its [review] operation: the log texts, the commits, the mode,
    the user rules and the report template.  [generatePrompt] is compared
    with [prompt_layout] below. *)
Module Layout.

Definition indent : jsstring := lit "        ".

Definition context_header : jsstring :=
  LF ++ indent ++ lit "Context:" ++ LF.

Definition log_bullet (text : jsstring) : jsstring := lit "- " ++ text.

Definition manual_log_section (texts : list jsstring) : jsstring :=
  indent ++ lit "Manual Logs:" ++ LF ++
  indent ++ join LF (map log_bullet texts) ++ LF ++
  indent ++ LF.

(** The diff block of a commit: present when the diff field is set to a
    non-empty text, absent (the empty string) otherwise. *)
Definition diff_block (g : GitCommit) : jsstring :=
  match diff g with
  | Some (c :: d) =>
      LF ++ lit "  Code Diff Summary:" ++ LF ++
      lit "```" ++ LF ++ (c :: d) ++ LF ++ lit "```"
  | _ => []
  end.

Definition commit_bullet (g : GitCommit) : jsstring :=
  lit "- [" ++ show_repo_name g ++ lit "] " ++ message g.

Definition commit_entry (g : GitCommit) : jsstring :=
  commit_bullet g ++ diff_block g.

Definition git_commit_section (commits : list GitCommit) : jsstring :=
  indent ++ lit "Git Commits:" ++ LF ++
  indent ++ join LF (map commit_entry commits) ++ LF ++
  indent ++ LF.

Definition analysis_directive : jsstring :=
  lit "Provide a comprehensive summary, 3 improvements, and 1 key knowledge point. If code diffs are provided, use them to explain technical details.".

Definition strict_adherence : jsstring :=
  lit "Strictly follow the format below:" ++ LF ++ LF ++
  lit "Format Template:" ++ LF.

Definition instruction (mode : ReviewMode) (template : jsstring)
  : jsstring :=
  match mode with
  | analysis => analysis_directive
  | export => strict_adherence ++ template
  end.

Definition instruction_block (mode : ReviewMode) (template : jsstring)
  : jsstring :=
  indent ++ lit "System Instruction:" ++ LF ++
  indent ++ instruction mode template ++ LF ++
  indent ++ LF.

Definition user_rules_block (rules : jsstring) : jsstring :=
  indent ++ lit "Additional User Rules:" ++ LF ++
  indent ++ rules ++ LF ++
  lit "      ".

Definition prompt_layout (texts : list jsstring)
    (commits : list GitCommit) (mode : ReviewMode)
    (rules template : jsstring) : jsstring :=
  context_header ++
  manual_log_section texts ++
  git_commit_section commits ++
  instruction_block mode template ++
  user_rules_block rules.

End Layout.

(* ===================================================================== *)
(** ** User actions on the repository path list *)
(* ===================================================================== *)

(** What the user can do to the repository list of the settings tab: type
    into the path field, press [+] ([addGitPath]) and press the cross next
    to a listed path ([removeGitPath]). *)
Inductive PathAction :=
| TypePath (v : jsstring)
| ClickAdd
| ClickRemove (pathToRemove : jsstring).

Definition act (a : PathAction) (w : World) : World :=
  match a with
  | TypePath v => run (typeGitPath v) w
  | ClickAdd => run addGitPath w
  | ClickRemove p => run (fun s => removeGitPath s p) w
  end.

Definition acts (l : list PathAction) (w : World) : World :=
  fold_left (fun w a => act a w) l w.

Definition paths_of (w : World) : list jsstring :=
  git_paths (config (w_state w)).

(** [{ ...s, config: { ...config, report_template: t } }]: the state after
    the template field of the settings form is edited. *)
Definition with_report_template (t : jsstring) (s : AppState) : AppState :=
  {| activeTab := activeTab s; logs := logs s; gitLogs := gitLogs s;
     newLog := newLog s;
     config := {| api_key := api_key (config s);
                  git_paths := git_paths (config s);
                  provider := provider (config s);
                  model := model (config s);
                  base_url := base_url (config s);
                  custom_rules := custom_rules (config s);
                  report_template := t;
                  deep_analysis := deep_analysis (config s) |};
     newGitPath := newGitPath s; reviewResult := reviewResult s;
     reviewMode := reviewMode s; isAiLoading := isAiLoading s |}.

(** The events a run added to the trace. *)
Definition added (before after : list Event) : list Event :=
  skipn (length before) after.

Definition is_call_ai (e : Event) : bool :=
  match e with
  | EInvoke (call_ai _) => true
  | _ => false
  end.

Definition is_save_log (e : Event) : bool :=
  match e with
  | EInvoke (save_log _ _) => true
  | _ => false
  end.

(** A string [trim] reduces to the empty string. *)
Definition blank (s : jsstring) : bool := forallb isWhiteSpace s.

(* ===================================================================== *)
(** ** Sample data *)
(* ===================================================================== *)

(** Concrete states, back ends and repositories on which the statements
    below are instantiated. *)
Module Examples.

Definition settings_of (key template : jsstring) (paths : list jsstring)
    (deep : bool) : AppConfig :=
  {| api_key := key; git_paths := paths; provider := lit "openai";
     model := lit "gpt-4o"; base_url := None;
     custom_rules := lit "Answer in English.";
     report_template := template; deep_analysis := deep |}.

Definition note (n : Z) (text stamp : jsstring) : LogItem :=
  {| id := Some n; content := text; log_type := lit "manual";
     timestamp := stamp |}.

Definition fix_commit : GitCommit :=
  {| hash := lit "a1b2c3"; message := lit "Fix login bug";
     author := lit "dev"; time := 1700000000;
     repo_name := Some (lit "MyRepo");
     diff := Some (lit "+ check(token)") |}.

Definition docs_commit : GitCommit :=
  {| hash := lit "d4e5f6"; message := lit "Update docs";
     author := lit "dev"; time := 1699990000;
     repo_name := Some (lit "MyRepo"); diff := None |}.

(** A working day: two notes, two synced commits, settings filled in. *)
Definition day : AppState :=
  {| activeTab := review;
     logs := [note 1 (lit "Fixed login bug") (lit "2024-01-01 09:30:00");
              note 2 (lit "Reviewed PR") (lit "2024-01-01 14:05:00")];
     gitLogs := [fix_commit; docs_commit];
     newLog := [];
     config := settings_of (lit "sk-test") (lit "1. Progress: ...")
                 [lit "C:/Work/Project"] true;
     newGitPath := [];
     reviewResult := [];
     reviewMode := analysis;
     isAiLoading := false |}.

(** The same notes and commits seen later: other row ids and time
    stamps, another tab, an earlier review on screen, text pending in
    both input fields. *)
Definition day_later : AppState :=
  {| activeTab := log;
     logs := [note 7 (lit "Fixed login bug") (lit "2024-01-01 09:31:00");
              note 9 (lit "Reviewed PR") (lit "2024-01-01 14:06:00")];
     gitLogs := [fix_commit; docs_commit];
     newLog := lit "draft";
     config := settings_of (lit "sk-other") (lit "1. Progress: ...")
                 [] false;
     newGitPath := lit "C:/Tmp";
     reviewResult := lit "Earlier review";
     reviewMode := export;
     isAiLoading := false |}.

(** Nothing logged, nothing synced. *)
Definition empty_day : AppState := initialState.

(** A back end whose commands all succeed. *)
Definition steady : Backend :=
  {| reply_get_today_logs := fun _ => Resolved [];
     reply_save_log := fun _ _ _ => Resolved tt;
     reply_scan_git_repos := fun _ _ _ => Resolved [];
     reply_call_ai := fun _ _ => Resolved (lit "Summary of the day") |}.

End Examples.

(** More sample data: worlds for the handlers. *)
Module Worlds.

(** The first render, nothing done yet. *)
Definition fresh : World :=
  {| w_state := initialState; w_trace := [] |}.

(** A session on the settings tab: the same path added twice, an empty
    addition, a second path, a removal and one more repeat. *)
Definition session : list PathAction :=
  [TypePath (lit "C:/Work/A"); ClickAdd;
   TypePath (lit "C:/Work/A"); ClickAdd;
   ClickAdd;
   TypePath (lit "C:/Work/B"); ClickAdd;
   ClickRemove (lit "C:/Work/A");
   TypePath (lit "C:/Work/B"); ClickAdd;
   TypePath (lit "C:/Work/C"); ClickAdd].

(** One path listed and typed again into the field. *)
Definition repeated : World :=
  acts [TypePath (lit "C:/Work/A"); ClickAdd; TypePath (lit "C:/Work/A")]
    fresh.

(** The note field holding [v], any other cell as in the first render. *)
Definition typing (v : jsstring) : AppState :=
  w_state (run (typeNewLog v) fresh).

(** Two spaces, a tab, a no-break space and an ideographic space. *)
Definition spaces : jsstring := [32; 32; 9; 160; 12288]%N.

End Worlds.

(** The back end [base] with [scan_git_repos] answered by the scan of
    [Module Scan] over the window [w]; the command itself takes the local
    calendar day. *)
Definition serving (max_diff_chars : nat) (truncation_marker : jsstring)
    (open_repository : jsstring -> Scan.OpenResult)
    (w : Scan.ActivityWindow) (base : Backend) : Backend :=
  {| reply_get_today_logs := reply_get_today_logs base;
     reply_save_log := reply_save_log base;
     reply_scan_git_repos := fun _ paths deepAnalysis =>
       Resolved (fst (Scan.scan max_diff_chars truncation_marker
                        open_repository paths w deepAnalysis));
     reply_call_ai := reply_call_ai base |}.

(** Sample repositories on disk. *)
Module Disk.

Definition first_commit : Scan.RepoCommit :=
  {| Scan.rc_hash := lit "0a"; Scan.rc_message := lit "Initial import";
     Scan.rc_author := lit "dev"; Scan.rc_time := 90;
     Scan.rc_change := Scan.InitialCommit |}.

Definition morning : Scan.RepoCommit :=
  {| Scan.rc_hash := lit "1b"; Scan.rc_message := lit "Fix login bug";
     Scan.rc_author := lit "dev"; Scan.rc_time := 100;
     Scan.rc_change :=
       Scan.TextDiff (lit "- return true; + return verify(token);") |}.

Definition afternoon : Scan.RepoCommit :=
  {| Scan.rc_hash := lit "2c"; Scan.rc_message := lit "Add logo";
     Scan.rc_author := lit "dev"; Scan.rc_time := 200;
     Scan.rc_change := Scan.BinaryContent |}.

Definition project : Scan.Repository :=
  {| Scan.identity := lit "/home/dev/project/.git";
     Scan.display_name := lit "project";
     Scan.history := [afternoon; morning; first_commit] |}.

(** Two spellings of the path of [project], one corrupt repository, and
    nothing anywhere else. *)
Definition open_repository (path : jsstring) : Scan.OpenResult :=
  if str_eqb path (lit "/home/dev/project") then Scan.Opened project
  else if str_eqb path (lit "/home/dev/./project") then Scan.Opened project
  else if str_eqb path (lit "/home/dev/broken") then Scan.RepositoryCorrupt
  else Scan.RepositoryNotFound.

Definition today : Scan.ActivityWindow :=
  {| Scan.start := 100; Scan.stop := 300 |}.

Definition max_diff_chars : nat := 20.
Definition truncation_marker : jsstring := lit "[truncated]".

Definition configured : list jsstring :=
  [lit "/home/dev/project"; lit "/home/dev/broken";
   lit "/home/dev/./project"].

Definition scan (deepAnalysis : bool) :=
  Scan.scan max_diff_chars truncation_marker open_repository configured
    today deepAnalysis.

(** The settings of a user who configured [configured]. *)
Definition state (deep : bool) : AppState :=
  {| activeTab := log; logs := []; gitLogs := []; newLog := [];
     config := {| api_key := lit "sk-test"; git_paths := configured;
                  provider := lit "openai"; model := lit "gpt-4o";
                  base_url := None; custom_rules := [];
                  report_template := []; deep_analysis := deep |};
     newGitPath := []; reviewResult := []; reviewMode := analysis;
     isAiLoading := false |}.

End Disk.

(* ===================================================================== *)
(** ** The settings form *)
(* ===================================================================== *)

(** The keys of [AppConfig], as [updateConfig] takes them. *)
Inductive ConfigKey :=
| key_api_key
| key_git_paths
| key_provider
| key_model
| key_base_url
| key_custom_rules
| key_report_template
| key_deep_analysis.

(** The type of the field a key names. *)
Definition value_of (key : ConfigKey) : Type :=
  match key with
  | key_git_paths => list jsstring
  | key_base_url => option jsstring
  | key_deep_analysis => bool
  | _ => jsstring
  end.


(** [{ ...prev, [key]: value }]. *)
Definition with_key (key : ConfigKey) : value_of key -> AppConfig -> AppConfig :=
  match key with
  | key_api_key => fun value prev =>
      {| api_key := value; git_paths := git_paths prev;
         provider := provider prev; model := model prev;
         base_url := base_url prev; custom_rules := custom_rules prev;
         report_template := report_template prev;
         deep_analysis := deep_analysis prev |}
  | key_git_paths => fun value prev =>
      {| api_key := api_key prev; git_paths := value;
         provider := provider prev; model := model prev;
         base_url := base_url prev; custom_rules := custom_rules prev;
         report_template := report_template prev;
         deep_analysis := deep_analysis prev |}
  | key_provider => fun value prev =>
      {| api_key := api_key prev; git_paths := git_paths prev;
         provider := value; model := model prev;
         base_url := base_url prev; custom_rules := custom_rules prev;
         report_template := report_template prev;
         deep_analysis := deep_analysis prev |}
  | key_model => fun value prev =>
      {| api_key := api_key prev; git_paths := git_paths prev;
         provider := provider prev; model := value;
         base_url := base_url prev; custom_rules := custom_rules prev;
         report_template := report_template prev;
         deep_analysis := deep_analysis prev |}
  | key_base_url => fun value prev =>
      {| api_key := api_key prev; git_paths := git_paths prev;
         provider := provider prev; model := model prev;
         base_url := value; custom_rules := custom_rules prev;
         report_template := report_template prev;
         deep_analysis := deep_analysis prev |}
  | key_custom_rules => fun value prev =>
      {| api_key := api_key prev; git_paths := git_paths prev;
         provider := provider prev; model := model prev;
         base_url := base_url prev; custom_rules := value;
         report_template := report_template prev;
         deep_analysis := deep_analysis prev |}
  | key_report_template => fun value prev =>
      {| api_key := api_key prev; git_paths := git_paths prev;
         provider := provider prev; model := model prev;
         base_url := base_url prev; custom_rules := custom_rules prev;
         report_template := value;
         deep_analysis := deep_analysis prev |}
  | key_deep_analysis => fun value prev =>
      {| api_key := api_key prev; git_paths := git_paths prev;
         provider := provider prev; model := model prev;
         base_url := base_url prev; custom_rules := custom_rules prev;
         report_template := report_template prev;
         deep_analysis := value |}
  end.

(** [updateConfig(key, value)]: [setConfig(prev => ({ ...prev, [key]:
    value }))]. *)
Definition updateConfig (key : ConfigKey) (value : value_of key)
  : App unit :=
  setConfig (with_key key value).



(* ===================================================================== *)
(** ** Pieces of the view *)
(* ===================================================================== *)

(** [s.split(' ')]: the pieces of [s] between its spaces, at least one. *)
Fixpoint split_space (s : jsstring) : list jsstring :=
  match s with
  | [] => [[]]
  | c :: rest =>
      if N.eqb c 32 then [] :: split_space rest
      else match split_space rest with
           | piece :: pieces => (c :: piece) :: pieces
           | [] => [[c]]
           end
  end.

(** The time shown next to a note:
    [log.timestamp.split(' ')[1].substring(0,5)].  The second piece is
    [undefined] when there is none, and taking its [substring] throws:
    [None]. *)
Definition timePill (l : LogItem) : option jsstring :=
  match nth_error (split_space (timestamp l)) 1 with
  | Some piece => Some (substring0 5 piece)
  | None => None
  end.

(** [x] occurs in [s] as a contiguous run of code units. *)
Definition occurs (x s : jsstring) : Prop :=
  exists pre post, s = pre ++ x ++ post.

(* ===================================================================== *)
(** ** The closures that reach the config store, delete a note or use the
       browser *)
(* ===================================================================== *)

Module Shell.

(** What these closures do to the outside: everything the closures above
    do ([Base]), the three further Tauri commands, the [confirm] dialog
    with the user's answer, [console.error] with a label, and the
    clipboard. *)
Inductive Effect :=
| Base (e : Event)
| InvokeGetConfig
| InvokeSaveConfig (config : AppConfig)
| InvokeDeleteLog (id : Z)
| Confirm (msg : jsstring) (answer : bool)
| ConsoleErrorLabelled (label e : jsstring)
| ClipboardWriteText (text : jsstring).

(** The outside as these closures see it; every reply may depend on all
    that happened before.  [base_backend] gives the back end answering the
    commands of the closures above after the effects so far. *)
Record Environment := {
  base_backend : list Effect -> Backend;
  reply_get_config : list Effect -> Reply AppConfig;
  reply_save_config : list Effect -> AppConfig -> Reply unit;
  reply_delete_log : list Effect -> Z -> Reply unit;
  answer_confirm : list Effect -> jsstring -> bool
}.

Record ShellWorld := {
  sh_state : AppState;
  sh_trace : list Effect
}.

Definition Shell (A : Type) : Type := ShellWorld -> A * ShellWorld.

Definition sret {A} (a : A) : Shell A := fun sw => (a, sw).

Definition sbind {A B} (m : Shell A) (k : A -> Shell B) : Shell B :=
  fun sw => let (a, sw') := m sw in k a sw'.

Declare Scope shell_scope.
Delimit Scope shell_scope with shell.
Notation "x <- m ;; k" := (sbind m (fun x => k))
  (at level 61, m at next level, right associativity) : shell_scope.
Notation "m ;; k" := (sbind m (fun _ => k))
  (at level 61, right associativity) : shell_scope.
Open Scope shell_scope.

Definition effect (e : Effect) : Shell unit :=
  fun sw => (tt, {| sh_state := sh_state sw; sh_trace := sh_trace sw ++ [e] |}).

(** [await invoke(...)] for the further commands. *)
Definition invoke_more {A} (e : Effect) (reply : list Effect -> Reply A)
  : Shell (Reply A) :=
  fun sw => sbind (effect e) (fun _ => sret (reply (sh_trace sw))) sw.

Section Closures.

Variable env : Environment.

(** The state cells of the render whose closures run. *)
Variable s : AppState.

(** [confirm(msg)]: the dialog is shown and the user answers. *)
Definition confirm (msg : jsstring) : Shell bool :=
  fun sw =>
    let answer := answer_confirm env (sh_trace sw) msg in
    sbind (effect (Confirm msg answer)) (fun _ => sret answer) sw.

(** A computation of the closures above run from here: it starts on the
    pending state, talks to the back end of this moment, and what it does
    is added to the trace. *)
Definition lift {A} (m : Backend -> App A) : Shell A :=
  fun sw =>
    let (a, w) := m (base_backend env (sh_trace sw))
                    {| w_state := sh_state sw; w_trace := [] |} in
    (a, {| sh_state := w_state w;
           sh_trace := sh_trace sw ++ map Base (w_trace w) |}).



Definition handleDeleteLog (id : Z) : Shell unit :=
  ok <- confirm (lit "Delete this log?") ;;
  if negb ok then sret tt
  else
    r <- invoke_more (InvokeDeleteLog id)
           (fun t => reply_delete_log env t id) ;;
    match r with
    | Resolved _ => lift (fun backend => loadLogs backend)
    | Rejected e => lift (fun _ => alert (lit "Failed to delete log: " ++ e))
    end.

(** The promise of [writeText] is not awaited. *)
Definition copyToClipboard : Shell unit :=
  effect (ClipboardWriteText (reviewResult s)) ;;
  lift (fun _ => alert (lit "Copied to clipboard!")).

End Closures.

(** A user action on the shell world. *)
Definition run (h : AppState -> Shell unit) (sw : ShellWorld) : ShellWorld :=
  snd (h (sh_state sw) sw).

Definition is_delete_log (e : Effect) : bool :=
  match e with
  | InvokeDeleteLog _ => true
  | _ => false
  end.

End Shell.

(** More sample data: an outside for the shell closures. *)
Module Outside.

(** The user answers [answer] to every dialog, deleting fails with [busy],
    everything else succeeds. *)
Definition env (answer : bool) : Shell.Environment :=
  {| Shell.base_backend := fun _ => Examples.steady;
     Shell.reply_get_config := fun _ => Resolved (config Examples.day);
     Shell.reply_save_config := fun _ _ => Resolved tt;
     Shell.reply_delete_log := fun _ id =>
       if (id =? 2)%Z then Rejected (lit "busy") else Resolved tt;
     Shell.answer_confirm := fun _ _ => answer |}.


End Outside.

(** More sample data: one note of two lines, and two notes. *)
Module Notes.

Definition with_notes (notes : list LogItem) : AppState :=
  {| activeTab := review; logs := notes; gitLogs := [Examples.docs_commit];
     newLog := []; config := config Examples.day; newGitPath := [];
     reviewResult := []; reviewMode := analysis; isAiLoading := false |}.

Definition joined : AppState :=
  with_notes [Examples.note 1 (lit "Standup" ++ LF ++ lit "- Lunch")
                (lit "2024-01-01 09:30:00")].

Definition apart : AppState :=
  with_notes [Examples.note 1 (lit "Standup") (lit "2024-01-01 09:30:00");
              Examples.note 2 (lit "Lunch") (lit "2024-01-01 12:00:00")].

End Notes.

(* ===================================================================== *)
(** * Properties *)
(* ===================================================================== *)

(** ** Strings *)

Lemma str_eqb_eq (a b : jsstring) : str_eqb a b = true <-> a = b.
Proof.
  revert b; induction a as [|x a IH]; intros [|y b]; simpl;
    try (split; [discriminate | discriminate]); try tauto.
  rewrite andb_true_iff, N.eqb_eq, IH.
  split.
  - intros [-> ->]; reflexivity.
  - intros E; injection E; auto.
Qed.

Lemma str_eqb_refl (a : jsstring) : str_eqb a a = true.
Proof. apply str_eqb_eq; reflexivity. Qed.


Lemma includes_In (xs : list jsstring) (x : jsstring) :
  includes xs x = true <-> In x xs.
Proof.
  unfold includes. rewrite existsb_exists. split.
  - intros [y [Hy E]]. apply str_eqb_eq in E. subst; assumption.
  - intros H. exists x. split; [assumption | apply str_eqb_refl].
Qed.

Lemma truthy_false (s : jsstring) : truthy s = false <-> s = [].
Proof. destruct s; simpl; split; congruence. Qed.

Lemma truthy_true (s : jsstring) : truthy s = true <-> s <> [].
Proof. destruct s; simpl; split; congruence. Qed.

Lemma trimStart_nil (s : jsstring) : trimStart s = [] <-> blank s = true.
Proof.
  unfold blank. induction s as [|c s IH]; simpl.
  - tauto.
  - destruct (isWhiteSpace c); simpl.
    + exact IH.
    + split; discriminate.
Qed.

Lemma blank_app (a b : jsstring) : blank (a ++ b) = blank a && blank b.
Proof. apply forallb_app. Qed.

Lemma blank_rev (s : jsstring) : blank (rev s) = blank s.
Proof.
  induction s as [|c s IH]; simpl; [reflexivity|].
  rewrite blank_app, IH. unfold blank at 2; simpl.
  rewrite andb_true_r. apply andb_comm.
Qed.

Lemma blank_trimStart (s : jsstring) : blank (trimStart s) = blank s.
Proof.
  induction s as [|c s IH]; simpl; [reflexivity|].
  destruct (isWhiteSpace c) eqn:E; simpl.
  - exact IH.
  - rewrite E. reflexivity.
Qed.

Lemma rev_nil_iff (A : Type) (l : list A) : rev l = [] <-> l = [].
Proof.
  split; intros H.
  - rewrite <- (rev_involutive l), H. reflexivity.
  - subst; reflexivity.
Qed.

(** [s.trim()] is the empty string exactly when every code unit of [s] is
    white space. *)
Lemma trim_nil (s : jsstring) : trim s = [] <-> blank s = true.
Proof.
  unfold trim, trimEnd.
  rewrite <- (blank_trimStart s), <- (blank_rev (trimStart s)).
  rewrite <- trimStart_nil.
  apply rev_nil_iff.
Qed.

Lemma truthy_trim (s : jsstring) : truthy (trim s) = negb (blank s).
Proof.
  destruct (blank s) eqn:B; simpl.
  - apply truthy_false, trim_nil, B.
  - apply truthy_true. intros H. apply trim_nil in H. congruence.
Qed.

(** [trim] only removes code units at the two ends. *)
Lemma trimStart_suffix (s : jsstring) :
  exists ws, s = ws ++ trimStart s /\ blank ws = true.
Proof.
  induction s as [|c s [ws [E B]]]; simpl.
  - exists []; split; reflexivity.
  - destruct (isWhiteSpace c) eqn:W.
    + exists (c :: ws); split.
      * simpl; congruence.
      * unfold blank in *; simpl; rewrite W; exact B.
    + exists []; split; reflexivity.
Qed.

Lemma join_nil (sep : jsstring) : join sep [] = [].
Proof. reflexivity. Qed.

Lemma join_cons (sep x : jsstring) (y : jsstring) (rest : list jsstring) :
  join sep (x :: y :: rest) = x ++ sep ++ join sep (y :: rest).
Proof. reflexivity. Qed.

(** ** The prompt *)

Lemma logLine_bullet (l : LogItem) :
  logLine l = Layout.log_bullet (content l).
Proof. reflexivity. Qed.

Lemma diff_truthy_Some (g : GitCommit) (d : jsstring) :
  diff_truthy g = Some d <-> diff g = Some d /\ d <> [].
Proof.
  unfold diff_truthy. destruct (diff g) as [[|c t]|]; simpl.
  - split; [discriminate | intros [E H]; injection E as <-; now elim H].
  - split.
    + intros E; injection E as <-; split; [reflexivity | discriminate].
    + intros [E _]; exact E.
  - split; [discriminate | intros [E _]; discriminate].
Qed.

Lemma gitLine_entry (g : GitCommit) : gitLine g = Layout.commit_entry g.
Proof.
  unfold gitLine, Layout.commit_entry, Layout.commit_bullet,
    Layout.diff_block, diff_truthy.
  destruct (diff g) as [[|c d]|]; simpl truthy; cbv iota;
    rewrite <- ?app_assoc, ?app_nil_r; reflexivity.
Qed.

Lemma baseInstruction_layout (s : AppState) (type : ReviewMode) :
  baseInstruction s type
  = Layout.instruction type (report_template (config s)).
Proof.
  destruct type; unfold baseInstruction, Layout.instruction,
    Layout.strict_adherence, Layout.analysis_directive;
    rewrite <- ?app_assoc; reflexivity.
Qed.

(** [generatePrompt] is the layout of the design document, read off the
    state cells it closes over. *)
Lemma generatePrompt_layout (s : AppState) (type : ReviewMode) :
  generatePrompt s type
  = Layout.prompt_layout (map content (logs s)) (gitLogs s) type
      (custom_rules (config s)) (report_template (config s)).
Proof.
  unfold generatePrompt, Layout.prompt_layout, Layout.context_header,
    Layout.manual_log_section, Layout.git_commit_section,
    Layout.instruction_block, Layout.user_rules_block.
  rewrite baseInstruction_layout, map_map.
  rewrite (map_ext logLine (fun l => Layout.log_bullet (content l))
             logLine_bullet).
  rewrite (map_ext gitLine Layout.commit_entry gitLine_entry).
  rewrite <- !app_assoc. reflexivity.
Qed.

(** C2: for every state of the logs, the commits, the rules and the
    template and for either mode, the prompt is the context header, then
    the manual-log bullet list, then the git-commit bullet list, then the
    mode-specific instruction block, then the user rules block, in this
    order; every commit entry is its bullet followed by a diff block, which
    is empty unless the commit's diff is set to a non-empty text and then
    carries that text between the code fences. *)
Theorem generatePrompt_section_order (s : AppState) (type : ReviewMode) :
  generatePrompt s type
  = Layout.context_header ++
    Layout.manual_log_section (map content (logs s)) ++
    Layout.git_commit_section (gitLogs s) ++
    Layout.instruction_block type (report_template (config s)) ++
    Layout.user_rules_block (custom_rules (config s))
  /\ Forall (fun g =>
       gitLine g = Layout.commit_bullet g ++ Layout.diff_block g /\
       match diff g with
       | Some d =>
           if truthy d then
             Layout.diff_block g
             = LF ++ lit "  Code Diff Summary:" ++ LF ++
               lit "```" ++ LF ++ d ++ LF ++ lit "```"
           else Layout.diff_block g = []
       | None => Layout.diff_block g = []
       end) (gitLogs s).
Proof.
  split.
  - apply generatePrompt_layout.
  - apply Forall_forall. intros g _. split.
    + apply gitLine_entry.
    + unfold Layout.diff_block. destruct (diff g) as [[|c d]|]; reflexivity.
Qed.

(** C3: the prompt is a function of the log texts, the commits, the mode,
    the user rules and the template alone: two component states that agree
    on these give the same prompt, whatever else differs between them (row
    ids, time stamps, pending input, API key, earlier results).  Building
    the prompt is a plain value of the embedding: it is no [App]
    computation, so it emits no event and writes no state cell. *)
Theorem generatePrompt_deterministic (s1 s2 : AppState)
    (type : ReviewMode) :
  map content (logs s1) = map content (logs s2) ->
  gitLogs s1 = gitLogs s2 ->
  custom_rules (config s1) = custom_rules (config s2) ->
  report_template (config s1) = report_template (config s2) ->
  generatePrompt s1 type = generatePrompt s2 type.
Proof.
  intros Hl Hg Hr Ht.
  rewrite !generatePrompt_layout, Hl, Hg, Hr, Ht. reflexivity.
Qed.

Lemma generatePrompt_deterministic_witness :
  Examples.day <> Examples.day_later /\
  generatePrompt Examples.day export
  = generatePrompt Examples.day_later export.
Proof.
  split.
  - discriminate.
  - apply (generatePrompt_deterministic Examples.day Examples.day_later);
      reflexivity.
Defined.

(** C6: in export mode the instruction block of the prompt is the
    directive to follow the format strictly, followed by the template of
    the settings, code unit for code unit; in analysis mode the instruction
    is one fixed directive, and neither it nor the prompt changes when the
    template is replaced by any other text. *)
Theorem instruction_by_mode (s : AppState) (t : jsstring) :
  baseInstruction s export
  = Layout.strict_adherence ++ report_template (config s)
  /\ generatePrompt s export
     = (Layout.context_header ++
        Layout.manual_log_section (map content (logs s)) ++
        Layout.git_commit_section (gitLogs s) ++
        Layout.indent ++ lit "System Instruction:" ++ LF ++ Layout.indent)
       ++ (Layout.strict_adherence ++ report_template (config s))
       ++ (LF ++ Layout.indent ++ LF ++
           Layout.user_rules_block (custom_rules (config s)))
  /\ baseInstruction s analysis = Layout.analysis_directive
  /\ baseInstruction (with_report_template t s) analysis
     = baseInstruction s analysis
  /\ generatePrompt (with_report_template t s) analysis
     = generatePrompt s analysis.
Proof.
  split; [|split; [|split; [|split]]].
  - apply (baseInstruction_layout s export).
  - rewrite generatePrompt_layout.
    unfold Layout.prompt_layout, Layout.instruction_block,
      Layout.instruction.
    rewrite <- !app_assoc. reflexivity.
  - apply (baseInstruction_layout s analysis).
  - reflexivity.
  - rewrite !generatePrompt_layout. reflexivity.
Qed.

(** C7: with no manual log the prompt still has the manual-log section,
    its header followed by an empty body, and with no commit it still has
    the git-commit section, its header followed by an empty body; the
    other sections stand where they always do. *)
Theorem empty_lists_keep_sections (s : AppState) (type : ReviewMode) :
  (logs s = [] ->
   generatePrompt s type
   = Layout.context_header ++
     (Layout.indent ++ lit "Manual Logs:" ++ LF ++
      Layout.indent ++ [] ++ LF ++ Layout.indent ++ LF) ++
     Layout.git_commit_section (gitLogs s) ++
     Layout.instruction_block type (report_template (config s)) ++
     Layout.user_rules_block (custom_rules (config s)))
  /\
  (gitLogs s = [] ->
   generatePrompt s type
   = Layout.context_header ++
     Layout.manual_log_section (map content (logs s)) ++
     (Layout.indent ++ lit "Git Commits:" ++ LF ++
      Layout.indent ++ [] ++ LF ++ Layout.indent ++ LF) ++
     Layout.instruction_block type (report_template (config s)) ++
     Layout.user_rules_block (custom_rules (config s))).
Proof.
  split; intros E; rewrite generatePrompt_layout, E; reflexivity.
Qed.

Lemma empty_lists_keep_sections_witness :
  logs Examples.empty_day = [] /\ gitLogs Examples.empty_day = [] /\
  generatePrompt Examples.empty_day analysis
  = LF ++ lit "        Context:" ++ LF ++
    lit "        Manual Logs:" ++ LF ++
    lit "        " ++ LF ++
    lit "        " ++ LF ++
    lit "        Git Commits:" ++ LF ++
    lit "        " ++ LF ++
    lit "        " ++ LF ++
    lit "        System Instruction:" ++ LF ++
    lit "        " ++ Layout.analysis_directive ++ LF ++
    lit "        " ++ LF ++
    lit "        Additional User Rules:" ++ LF ++
    lit "        " ++ LF ++
    lit "      ".
Proof.
  split; [reflexivity | split; [reflexivity |]].
  destruct (empty_lists_keep_sections Examples.empty_day analysis)
    as [H _].
  rewrite (H eq_refl). reflexivity.
Defined.

(** ** The handlers *)

(** Runs the monadic plumbing of a handler: binds, setters, [invoke] and
    [alert] are computed away, the texts of the prompt and of the messages
    are left as they are. *)
Ltac app_steps :=
  cbv beta iota zeta delta
    [bind ret emit modify alert console_error invoke run
     setActiveTab setLogs setGitLogs setNewLog setConfig setNewGitPath
     setReviewResult setReviewMode setIsAiLoading
     invoke_get_today_logs invoke_save_log invoke_scan_git_repos
     invoke_call_ai loadLogs updateConfig_git_paths typeGitPath typeNewLog];
  cbn [w_state w_trace fst snd
       activeTab logs gitLogs newLog config newGitPath reviewResult
       reviewMode isAiLoading].

Lemma added_app (t l : list Event) : added t (t ++ l) = l.
Proof.
  unfold added. rewrite skipn_app, skipn_all, Nat.sub_diag. reflexivity.
Qed.

(** With a key configured the handler sends the prompt of the current
    render to [call_ai], once. *)
Lemma handleAiReview_with_key (backend : Backend) (s : AppState)
    (mode : ReviewMode) (w : World) :
  api_key (config s) <> [] ->
  let request :=
    {| req_provider := provider (config s);
       req_api_key := api_key (config s);
       req_model := model (config s);
       req_prompt := generatePrompt s mode;
       req_base_url := base_url (config s) |} in
  w_trace (snd (handleAiReview backend s mode w))
  = w_trace w ++ EInvoke (call_ai request) ::
      match reply_call_ai backend (w_trace w) request with
      | Resolved _ => []
      | Rejected e => [EAlert (lit "AI Action Failed: " ++ e)]
      end.
Proof.
  intros K request. apply truthy_true in K.
  unfold handleAiReview. rewrite K. cbv beta iota delta [negb].
  fold request. app_steps.
  destruct (reply_call_ai backend _ request) as [response|e]; app_steps.
  - reflexivity.
  - rewrite <- app_assoc. reflexivity.
Qed.

(** C8: when the API key of the settings is the empty string,
    [handleAiReview] only raises the alert and switches to the settings
    tab: the run adds no [call_ai] invocation to the trace and leaves the
    stored review result (and the mode and loading cells) as they were. *)
Theorem handleAiReview_without_key (backend : Backend) (s : AppState)
    (mode : ReviewMode) (w : World) :
  api_key (config s) = [] ->
  let w' := snd (handleAiReview backend s mode w) in
  w_trace w'
  = w_trace w ++ [EAlert (lit "Please configure API Key in Settings first.")]
  /\ existsb is_call_ai (added (w_trace w) (w_trace w')) = false
  /\ reviewResult (w_state w') = reviewResult (w_state w)
  /\ reviewMode (w_state w') = reviewMode (w_state w)
  /\ isAiLoading (w_state w') = isAiLoading (w_state w)
  /\ activeTab (w_state w') = settings.
Proof.
  intros E w'. subst w'. unfold handleAiReview. rewrite E.
  cbv beta iota delta [negb truthy]. app_steps.
  rewrite added_app. repeat split.
Qed.

Lemma handleAiReview_without_key_witness :
  api_key (config initialState) = [] /\
  let w := {| w_state := initialState; w_trace := [] |} in
  let w' := snd (handleAiReview Examples.steady initialState export w) in
  w_trace w'
  = [EAlert (lit "Please configure API Key in Settings first.")]
  /\ reviewResult (w_state w') = []
  /\ activeTab (w_state w') = settings.
Proof.
  split; [reflexivity|].
  destruct (handleAiReview_without_key Examples.steady initialState export
              {| w_state := initialState; w_trace := [] |} eq_refl)
    as [Ht [_ [Hr [_ [_ Ha]]]]].
  split; [exact Ht | split; [exact Hr | exact Ha]].
Defined.

(** ** The repository path list *)

Lemma paths_of_type (typed : jsstring) (w : World) :
  paths_of (run (typeGitPath typed) w) = paths_of w.
Proof. reflexivity. Qed.

Lemma paths_of_add (w : World) :
  paths_of (run addGitPath w)
  = if truthy (newGitPath (w_state w))
       && negb (includes (paths_of w) (newGitPath (w_state w)))
    then paths_of w ++ [newGitPath (w_state w)]
    else paths_of w.
Proof.
  unfold run, addGitPath, paths_of.
  destruct (truthy _ && negb _); reflexivity.
Qed.

Lemma paths_of_remove (p : jsstring) (w : World) :
  paths_of (run (fun s => removeGitPath s p) w)
  = filter (fun q => negb (str_eqb q p)) (paths_of w).
Proof. reflexivity. Qed.

Lemma NoDup_snoc (A : Type) (l : list A) (x : A) :
  NoDup l -> ~ In x l -> NoDup (l ++ [x]).
Proof.
  intros Hl Hx. apply NoDup_app.
  - exact Hl.
  - constructor; [intros [] | constructor].
  - intros a Ha [<-|[]]. exact (Hx Ha).
Qed.

Lemma act_NoDup (a : PathAction) (w : World) :
  NoDup (paths_of w) -> NoDup (paths_of (act a w)).
Proof.
  intros H. destruct a as [v| |p]; unfold act.
  - rewrite paths_of_type. exact H.
  - rewrite paths_of_add.
    destruct (truthy (newGitPath (w_state w))); simpl; [|exact H].
    destruct (includes (paths_of w) (newGitPath (w_state w))) eqn:I; simpl;
      [exact H|].
    apply NoDup_snoc; [exact H|].
    intros Hin. apply includes_In in Hin. congruence.
  - rewrite paths_of_remove. apply NoDup_filter, H.
Qed.

Lemma acts_NoDup (actions : list PathAction) (w : World) :
  NoDup (paths_of w) -> NoDup (paths_of (acts actions w)).
Proof.
  revert w. induction actions as [|a actions IH]; intros w H; simpl.
  - exact H.
  - apply IH, act_NoDup, H.
Qed.

Lemma addGitPath_skips (w : World) :
  newGitPath (w_state w) = [] \/ In (newGitPath (w_state w)) (paths_of w) ->
  run addGitPath w = w.
Proof.
  intros H. unfold run, addGitPath.
  assert (C : truthy (newGitPath (w_state w))
              && negb (includes (git_paths (config (w_state w)))
                         (newGitPath (w_state w))) = false).
  { destruct H as [E|Hin].
    - rewrite E. reflexivity.
    - apply includes_In in Hin. unfold paths_of in Hin. rewrite Hin.
      apply andb_false_r. }
  rewrite C. reflexivity.
Qed.

(** C9: starting from a repository path list without duplicates, every
    sequence of [addGitPath] and [removeGitPath] runs, with any typing into
    the path field in between, leaves the list without duplicates; and
    [addGitPath] run while the field holds the empty string or a path
    already in the list changes nothing, the list included. *)
Theorem git_paths_stay_duplicate_free (actions : list PathAction)
    (w : World) :
  (NoDup (paths_of w) -> NoDup (paths_of (acts actions w)))
  /\ (newGitPath (w_state w) = [] -> run addGitPath w = w)
  /\ (In (newGitPath (w_state w)) (paths_of w) -> run addGitPath w = w).
Proof.
  split; [apply acts_NoDup | split; intros H; apply addGitPath_skips; auto].
Qed.

Lemma git_paths_stay_duplicate_free_witness :
  NoDup (paths_of Worlds.fresh)
  /\ paths_of (acts Worlds.session Worlds.fresh)
     = [lit "C:/Work/B"; lit "C:/Work/C"]
  /\ NoDup (paths_of (acts Worlds.session Worlds.fresh))
  /\ run addGitPath Worlds.fresh = Worlds.fresh
  /\ run addGitPath Worlds.repeated = Worlds.repeated.
Proof.
  assert (N : NoDup (paths_of Worlds.fresh)) by constructor.
  split; [exact N | split; [reflexivity | split; [|split]]].
  - exact (proj1 (git_paths_stay_duplicate_free Worlds.session Worlds.fresh)
             N).
  - exact (proj1 (proj2 (git_paths_stay_duplicate_free [] Worlds.fresh))
             eq_refl).
  - apply (proj2 (proj2 (git_paths_stay_duplicate_free [] Worlds.repeated))).
    simpl. left. reflexivity.
Defined.

(** ** Adding a note *)

Lemma handleAddLog_blank (backend : Backend) (s : AppState) (w : World) :
  blank (newLog s) = true -> handleAddLog backend s w = (tt, w).
Proof.
  intros B. unfold handleAddLog. rewrite truthy_trim, B. reflexivity.
Qed.

Lemma handleAddLog_saves (backend : Backend) (s : AppState) (w : World) :
  blank (newLog s) = false ->
  w_trace (snd (handleAddLog backend s w))
  = w_trace w ++ EInvoke (save_log (newLog s) (lit "manual")) ::
      match reply_save_log backend (w_trace w) (newLog s) (lit "manual") with
      | Resolved _ =>
          EInvoke get_today_logs ::
          match reply_get_today_logs backend
                  (w_trace w ++
                   [EInvoke (save_log (newLog s) (lit "manual"))]) with
          | Resolved _ => []
          | Rejected e => [EConsoleError e]
          end
      | Rejected e => [EAlert (lit "Failed to save log: " ++ e)]
      end.
Proof.
  intros B. unfold handleAddLog. rewrite truthy_trim, B.
  cbv beta iota delta [negb]. app_steps.
  destruct (reply_save_log backend _ _ _) as [u|e]; app_steps.
  - destruct (reply_get_today_logs backend _) as [l|e]; app_steps;
      rewrite <- !app_assoc; reflexivity.
  - rewrite <- app_assoc. reflexivity.
Qed.

(** C10: when the note field holds only white space (or nothing),
    [handleAddLog] returns at once: no event is added to the trace, so
    [save_log] is not invoked, and no state cell is written, so the pending
    text stays; when the field holds anything else, the first thing the
    handler does is to invoke [save_log] with the text of the field, as it
    stands, and the log type [manual], and it does so once. *)
Theorem handleAddLog_guard (backend : Backend) (s : AppState) (w : World) :
  (blank (newLog s) = true ->
   handleAddLog backend s w = (tt, w))
  /\
  (blank (newLog s) = false ->
   exists rest,
     w_trace (snd (handleAddLog backend s w))
     = w_trace w ++ EInvoke (save_log (newLog s) (lit "manual")) :: rest
     /\ existsb is_save_log rest = false).
Proof.
  split; intros B.
  - apply handleAddLog_blank, B.
  - eexists. split.
    + apply handleAddLog_saves, B.
    + destruct (reply_save_log backend _ _ _); [|reflexivity].
      destruct (reply_get_today_logs backend _); reflexivity.
Qed.

Lemma handleAddLog_guard_witness :
  blank Worlds.spaces = true
  /\ handleAddLog Examples.steady (Worlds.typing Worlds.spaces) Worlds.fresh
     = (tt, Worlds.fresh)
  /\ blank (lit " fixed the build ") = false
  /\ exists rest,
       w_trace (snd (handleAddLog Examples.steady
                       (Worlds.typing (lit " fixed the build "))
                       Worlds.fresh))
       = EInvoke (save_log (lit " fixed the build ") (lit "manual")) :: rest
       /\ existsb is_save_log rest = false.
Proof.
  split; [reflexivity | split; [| split; [reflexivity |]]].
  - exact (proj1 (handleAddLog_guard Examples.steady
                    (Worlds.typing Worlds.spaces) Worlds.fresh) eq_refl).
  - exact (proj2 (handleAddLog_guard Examples.steady
                    (Worlds.typing (lit " fixed the build ")) Worlds.fresh)
             eq_refl).
Defined.

(** ** The scan: sorting and deduplication *)

Section SortFacts.
Variable A : Type.
Variable le : A -> A -> bool.

Lemma In_insert (x y : A) (l : list A) :
  In y (Scan.insert le x l) <-> y = x \/ In y l.
Proof.
  induction l as [|z l IH]; simpl.
  - intuition.
  - destruct (le x z); simpl; [intuition | rewrite IH; intuition].
Qed.

Lemma In_sort (y : A) (l : list A) : In y (Scan.sort le l) <-> In y l.
Proof.
  induction l as [|x l IH]; simpl; [tauto|].
  rewrite In_insert, IH. intuition.
Qed.

Variable B : Type.
Variable le' : B -> B -> bool.
Variable f : A -> B.
Hypothesis le_f : forall a b, le' (f a) (f b) = le a b.

Lemma map_insert (x : A) (l : list A) :
  map f (Scan.insert le x l) = Scan.insert le' (f x) (map f l).
Proof.
  induction l as [|z l IH]; simpl; [reflexivity|].
  rewrite le_f. destruct (le x z); simpl; [reflexivity|].
  rewrite IH. reflexivity.
Qed.

Lemma map_sort (l : list A) :
  map f (Scan.sort le l) = Scan.sort le' (map f l).
Proof.
  induction l as [|x l IH]; simpl; [reflexivity|].
  rewrite map_insert, IH. reflexivity.
Qed.
End SortFacts.

Lemma key_eqb_eq (a b : jsstring * jsstring) :
  Scan.key_eqb a b = true <-> a = b.
Proof.
  destruct a as [a1 a2], b as [b1 b2]. unfold Scan.key_eqb; simpl.
  rewrite andb_true_iff, !str_eqb_eq. split.
  - intros [-> ->]; reflexivity.
  - intros E; injection E; auto.
Qed.

Lemma seen_In (k : jsstring * jsstring) (seen : list (jsstring * jsstring)) :
  existsb (Scan.key_eqb k) seen = true <-> In k seen.
Proof.
  rewrite existsb_exists. split.
  - intros [y [Hy E]]. apply key_eqb_eq in E. subst; assumption.
  - intros H. exists k. split; [assumption | apply key_eqb_eq; reflexivity].
Qed.

Lemma In_dedup (x : Scan.Scanned) (l : list Scan.Scanned)
    (seen : list (jsstring * jsstring)) :
  In x (Scan.dedup seen l) -> In x l /\ ~ In (Scan.key x) seen.
Proof.
  revert seen. induction l as [|y l IH]; intros seen; simpl; [tauto|].
  destruct (existsb (Scan.key_eqb (Scan.key y)) seen) eqn:E.
  - intros H. destruct (IH _ H). auto.
  - intros [<-|H].
    + split; [auto|]. intros Hin. apply seen_In in Hin. congruence.
    + destruct (IH _ H) as [H1 H2]. split; [auto|].
      intros Hin. apply H2. right. exact Hin.
Qed.

(** Deduplication leaves every key at most once, whatever the input. *)
Lemma dedup_NoDup (l : list Scan.Scanned)
    (seen : list (jsstring * jsstring)) :
  NoDup (map Scan.key (Scan.dedup seen l)).
Proof.
  revert seen. induction l as [|y l IH]; intros seen; simpl.
  - constructor.
  - destruct (existsb (Scan.key_eqb (Scan.key y)) seen) eqn:E.
    + apply IH.
    + simpl. constructor; [|apply IH].
      intros Hin. apply in_map_iff in Hin. destruct Hin as [x [Kx Hx]].
      apply In_dedup in Hx. destruct Hx as [_ Hx]. apply Hx.
      left. symmetry. exact Kx.
Qed.

(** Deduplication loses no key: every commit of the input is still
    represented. *)
Lemma dedup_complete (l : list Scan.Scanned)
    (seen : list (jsstring * jsstring)) (x : Scan.Scanned) :
  In x l -> ~ In (Scan.key x) seen ->
  In (Scan.key x) (map Scan.key (Scan.dedup seen l)).
Proof.
  revert seen. induction l as [|y l IH]; intros seen; simpl; [tauto|].
  intros [->|Hx] Hs.
  - destruct (existsb _ seen) eqn:E.
    + apply seen_In in E. contradiction.
    + left. reflexivity.
  - destruct (existsb _ seen) eqn:E.
    + apply IH; assumption.
    + simpl.
      destruct (Scan.key_eqb (Scan.key y) (Scan.key x)) eqn:K.
      * left. apply key_eqb_eq, K.
      * right. apply IH; [assumption|].
        intros [Hy|Hin]; [|contradiction].
        apply key_eqb_eq in Hy. congruence.
Qed.

Lemma map_dedup_strip (l : list Scan.Scanned)
    (seen : list (jsstring * jsstring)) :
  map Scan.strip (Scan.dedup seen l) = Scan.dedup seen (map Scan.strip l).
Proof.
  revert seen. induction l as [|y l IH]; intros seen; simpl; [reflexivity|].
  change (Scan.key (Scan.strip y)) with (Scan.key y).
  destruct (existsb (Scan.key_eqb (Scan.key y)) seen); simpl;
    rewrite IH; reflexivity.
Qed.

Lemma owned_by_In (i : jsstring) (feed : list Scan.Scanned)
    (x : Scan.Scanned) :
  In x (Scan.owned_by i feed) <-> In x feed /\ Scan.owner x = i.
Proof.
  unfold Scan.owned_by. rewrite filter_In, str_eqb_eq. tauto.
Qed.

(** Selecting the commits of one repository keeps the keys apart. *)
Lemma owned_by_keys (i : jsstring) (feed : list Scan.Scanned) :
  NoDup (map Scan.key feed) -> NoDup (map Scan.key (Scan.owned_by i feed)).
Proof.
  induction feed as [|x feed IH]; intros K; [constructor|].
  inversion K as [|k ks Kx Kfeed]; subst.
  unfold Scan.owned_by in *; simpl.
  destruct (str_eqb (Scan.owner x) i); [|exact (IH Kfeed)].
  simpl. constructor; [|exact (IH Kfeed)].
  contradict Kx. apply in_map_iff in Kx. destruct Kx as [y [Ky Hy]].
  apply in_map_iff. exists y. split; [exact Ky|].
  apply (owned_by_In i feed y), Hy.
Qed.

(** Within one repository the key is as good as the hash. *)
Lemma same_owner_hashes (i : jsstring) (feed : list Scan.Scanned) :
  (forall x, In x feed -> Scan.owner x = i) ->
  NoDup (map Scan.key feed) ->
  NoDup (map hash (map Scan.commit feed)).
Proof.
  intros Hi Hk. apply (NoDup_map_inv (pair i)).
  rewrite !map_map.
  rewrite (map_ext_in _ Scan.key); [exact Hk|].
  intros x Hx. unfold Scan.key. rewrite (Hi x Hx). reflexivity.
Qed.

Section ScanFacts.

Variable max_diff_chars : nat.
Variable truncation_marker : jsstring.
Variable open_repository : jsstring -> Scan.OpenResult.

Let truncate := Scan.truncate max_diff_chars truncation_marker.
Let summarize_diff := Scan.summarize_diff max_diff_chars truncation_marker.
Let to_commit := Scan.to_commit max_diff_chars truncation_marker.
Let scan_path :=
  Scan.scan_path max_diff_chars truncation_marker open_repository.
Let aggregate :=
  Scan.aggregate max_diff_chars truncation_marker open_repository.
Let scan := Scan.scan max_diff_chars truncation_marker open_repository.

(** The concatenation of the per-repository sequences (step 4, before
    the sort). *)
Let merged (paths : list jsstring) (w : Scan.ActivityWindow)
    (deep : bool) : list Scan.Scanned :=
  concat (map fst (map (scan_path w deep) paths)).

Lemma truncate_short (text : jsstring) :
  length text <= max_diff_chars -> truncate text = text.
Proof.
  intros H. unfold truncate, Scan.truncate.
  apply Nat.leb_le in H. rewrite H. reflexivity.
Qed.

Lemma truncate_long (text : jsstring) :
  max_diff_chars < length text ->
  truncate text = firstn max_diff_chars text ++ truncation_marker
  /\ length (truncate text) = max_diff_chars + length truncation_marker.
Proof.
  intros H. unfold truncate, Scan.truncate.
  assert (L : (length text <=? max_diff_chars) = false)
    by (apply Nat.leb_gt; exact H).
  rewrite L. split; [reflexivity|].
  rewrite length_app, length_firstn. lia.
Qed.

Lemma truncate_bound (text : jsstring) :
  length (truncate text) <= max_diff_chars + length truncation_marker.
Proof.
  destruct (Nat.le_gt_cases (length text) max_diff_chars) as [H|H].
  - rewrite truncate_short by exact H. lia.
  - destruct (@truncate_long text H) as [_ ->]. lia.
Qed.

Lemma summarize_diff_bound (c : Scan.RepoCommit) (d : jsstring) :
  summarize_diff c = Some d ->
  length d <= max_diff_chars + length truncation_marker.
Proof.
  unfold summarize_diff, Scan.summarize_diff.
  destruct (Scan.diff_text (Scan.rc_change c)); simpl; [|discriminate].
  intros E; injection E as <-. apply truncate_bound.
Qed.

Lemma In_extract (r : Scan.Repository) (w : Scan.ActivityWindow)
    (c : Scan.RepoCommit) :
  In c (Scan.extract r w)
  <-> In c (Scan.history r) /\ Scan.in_window w (Scan.rc_time c) = true.
Proof. unfold Scan.extract. rewrite In_sort, filter_In. tauto. Qed.

Lemma In_scan_path (w : Scan.ActivityWindow) (deep : bool)
    (path : jsstring) (x : Scan.Scanned) :
  In x (fst (scan_path w deep path))
  <-> exists r c, open_repository path = Scan.Opened r
                  /\ In c (Scan.extract r w)
                  /\ x = to_commit r deep c.
Proof.
  unfold scan_path, Scan.scan_path.
  destruct (open_repository path) as [r| |]; simpl.
  - rewrite in_map_iff. split.
    + intros [c [E Hc]]. exists r, c. auto.
    + intros [r' [c [E [Hc Hx]]]]. injection E as <-. exists c. auto.
  - split; [tauto | intros [r [c [E _]]]; discriminate].
  - split; [tauto | intros [r [c [E _]]]; discriminate].
Qed.

Lemma In_merged (paths : list jsstring) (w : Scan.ActivityWindow)
    (deep : bool) (x : Scan.Scanned) :
  In x (merged paths w deep)
  <-> exists path r c, In path paths
                       /\ open_repository path = Scan.Opened r
                       /\ In c (Scan.extract r w)
                       /\ x = to_commit r deep c.
Proof.
  unfold merged. rewrite in_concat. split.
  - intros [l [Hl Hx]]. rewrite map_map in Hl. apply in_map_iff in Hl.
    destruct Hl as [path [<- Hp]]. apply In_scan_path in Hx.
    destruct Hx as [r [c H]]. exists path, r, c. tauto.
  - intros [path [r [c [Hp H]]]]. exists (fst (scan_path w deep path)).
    split.
    + rewrite map_map. apply in_map_iff. exists path. auto.
    + apply In_scan_path. exists r, c. exact H.
Qed.

Lemma fst_aggregate (paths : list jsstring) (w : Scan.ActivityWindow)
    (deep : bool) :
  fst (aggregate paths w deep)
  = Scan.dedup [] (Scan.sort Scan.feed_before (merged paths w deep)).
Proof. reflexivity. Qed.

Lemma fst_scan (paths : list jsstring) (w : Scan.ActivityWindow)
    (deep : bool) :
  fst (scan paths w deep) = map Scan.commit (fst (aggregate paths w deep)).
Proof.
  unfold scan, Scan.scan. fold (aggregate paths w deep).
  destruct (aggregate paths w deep); reflexivity.
Qed.

(** Every commit of the feed is a commit of the history of a configured
    repository, inside the window. *)
Lemma aggregate_origin (paths : list jsstring) (w : Scan.ActivityWindow)
    (deep : bool) (x : Scan.Scanned) :
  In x (fst (aggregate paths w deep)) ->
  exists path r c, In path paths
                   /\ open_repository path = Scan.Opened r
                   /\ In c (Scan.history r)
                   /\ Scan.in_window w (Scan.rc_time c) = true
                   /\ x = to_commit r deep c.
Proof.
  rewrite fst_aggregate. intros H. apply In_dedup in H.
  destruct H as [H _]. apply In_sort, In_merged in H.
  destruct H as [path [r [c [Hp [Ho [Hc Hx]]]]]].
  apply In_extract in Hc. exists path, r, c. tauto.
Qed.

(** Conversely every such commit is represented in the feed, by its key. *)
Lemma aggregate_covers (paths : list jsstring) (w : Scan.ActivityWindow)
    (deep : bool) (path : jsstring) (r : Scan.Repository)
    (c : Scan.RepoCommit) :
  In path paths -> open_repository path = Scan.Opened r ->
  In c (Scan.history r) -> Scan.in_window w (Scan.rc_time c) = true ->
  In (Scan.identity r, Scan.rc_hash c)
     (map Scan.key (fst (aggregate paths w deep))).
Proof.
  intros Hp Ho Hc Hw. rewrite fst_aggregate.
  apply (dedup_complete _ [] (to_commit r deep c)); [|intros []].
  apply In_sort, In_merged. exists path, r, c.
  rewrite In_extract. tauto.
Qed.

Lemma strip_to_commit (r : Scan.Repository) (deep : bool)
    (c : Scan.RepoCommit) :
  Scan.strip (to_commit r deep c) = to_commit r false c.
Proof. reflexivity. Qed.

Lemma merged_strip (paths : list jsstring) (w : Scan.ActivityWindow)
    (deep : bool) :
  map Scan.strip (merged paths w deep) = merged paths w false.
Proof.
  unfold merged. induction paths as [|path paths IH]; simpl;
    [reflexivity|].
  rewrite map_app, IH. f_equal.
  unfold scan_path, Scan.scan_path.
  destruct (open_repository path); simpl; [|reflexivity|reflexivity].
  rewrite map_map. apply map_ext. intros c. apply strip_to_commit.
Qed.

(** The flag decides the diff fields and nothing else. *)
Lemma aggregate_strip (paths : list jsstring) (w : Scan.ActivityWindow)
    (deep : bool) :
  map Scan.strip (fst (aggregate paths w deep))
  = fst (aggregate paths w false).
Proof.
  rewrite !fst_aggregate, map_dedup_strip.
  rewrite (map_sort Scan.feed_before Scan.feed_before Scan.strip)
    by reflexivity.
  rewrite merged_strip. reflexivity.
Qed.

End ScanFacts.

(** ** The scan as the front end receives it *)

Lemma handleSyncGit_resolved (backend : Backend) (s : AppState) (w : World)
    (commits : list GitCommit) :
  git_paths (config s) <> [] ->
  reply_scan_git_repos backend (w_trace w) (git_paths (config s))
    (deep_analysis (config s)) = Resolved commits ->
  gitLogs (w_state (snd (handleSyncGit backend s w))) = commits
  /\ exists rest,
       w_trace (snd (handleSyncGit backend s w))
       = w_trace w ++
         EInvoke (scan_git_repos (git_paths (config s))
                    (deep_analysis (config s))) :: rest.
Proof.
  intros P R. unfold handleSyncGit.
  destruct (git_paths (config s)) as [|p ps] eqn:E; [congruence|].
  cbn [length Nat.eqb]. app_steps. rewrite R.
  destruct (deep_analysis (config s)); app_steps.
  - split; [reflexivity|]. eexists. rewrite <- app_assoc. reflexivity.
  - split; [reflexivity|]. eexists. reflexivity.
Qed.

Lemma scan_deep_off (max_diff_chars : nat) (truncation_marker : jsstring)
    (open_repository : jsstring -> Scan.OpenResult)
    (paths : list jsstring) (w : Scan.ActivityWindow) :
  Forall (fun g => diff g = None)
    (fst (Scan.scan max_diff_chars truncation_marker open_repository
            paths w false)).
Proof.
  rewrite fst_scan. apply Forall_forall. intros g Hg.
  apply in_map_iff in Hg. destruct Hg as [x [<- Hx]].
  apply aggregate_origin in Hx.
  destruct Hx as [path [r [c [_ [_ [_ [_ ->]]]]]]]. reflexivity.
Qed.

(** C4: a scan with the deep-analysis flag off returns only commits whose
    diff field is unset.  The flag is one boolean argument of the scan: it
    decides the diff fields and nothing else, the commits returned with
    the flag on being, diff fields apart, the commits returned with it off,
    with the same warnings; and [handleSyncGit] hands the flag of the
    settings to the scan as that argument, so with the flag off every
    commit it stores has its diff unset. *)
Theorem scan_without_deep_analysis (max_diff_chars : nat)
    (truncation_marker : jsstring)
    (open_repository : jsstring -> Scan.OpenResult)
    (paths : list jsstring) (w : Scan.ActivityWindow) :
  let scan :=
    Scan.scan max_diff_chars truncation_marker open_repository paths w in
  Forall (fun g => diff g = None) (fst (scan false))
  /\ (forall deep,
        map Scan.without_diff (fst (scan deep)) = fst (scan false)
        /\ snd (scan deep) = snd (scan false))
  /\ (forall (base : Backend) (s : AppState) (w0 : World),
        git_paths (config s) <> [] ->
        deep_analysis (config s) = false ->
        Forall (fun g => diff g = None)
          (gitLogs (w_state (snd (handleSyncGit
             (serving max_diff_chars truncation_marker open_repository w
                base) s w0))))).
Proof.
  intros scan. subst scan. split; [apply scan_deep_off | split].
  - intros deep. split.
    + rewrite !fst_scan, <- aggregate_strip with (deep := deep).
      rewrite !map_map. reflexivity.
    + unfold Scan.scan, Scan.aggregate. cbn [snd].
      f_equal. rewrite !map_map. apply map_ext. intros path.
      unfold Scan.scan_path. destruct (open_repository path); reflexivity.
  - intros base s w0 P D.
    destruct (@handleSyncGit_resolved
                (serving max_diff_chars truncation_marker open_repository w
                   base) s w0 _ P eq_refl) as [-> _].
    rewrite D. apply scan_deep_off.
Qed.

Lemma scan_without_deep_analysis_witness :
  map hash (fst (Disk.scan false)) = [lit "2c"; lit "1b"]
  /\ Forall (fun g => diff g = None) (fst (Disk.scan false))
  /\ map Scan.without_diff (fst (Disk.scan true)) = fst (Disk.scan false)
  /\ git_paths (config (Disk.state false)) <> []
  /\ deep_analysis (config (Disk.state false)) = false
  /\ Forall (fun g => diff g = None)
       (gitLogs (w_state (snd (handleSyncGit
          (serving Disk.max_diff_chars Disk.truncation_marker
             Disk.open_repository Disk.today Examples.steady)
          (Disk.state false) Worlds.fresh)))).
Proof.
  destruct (scan_without_deep_analysis Disk.max_diff_chars
              Disk.truncation_marker Disk.open_repository Disk.configured
              Disk.today) as [H1 [H2 H3]].
  assert (P : git_paths (config (Disk.state false)) <> []) by discriminate.
  split; [reflexivity | split; [exact H1 | split; [exact (proj1 (H2 true)) |
    split; [exact P | split; [reflexivity |]]]]].
  exact (H3 Examples.steady (Disk.state false) Worlds.fresh P eq_refl).
Defined.

(** C5: in the feed a scan returns, no pair (repository identity, hash)
    occurs twice; hence among the commits owned by any one repository no
    hash occurs twice, and when the configured references that open all
    resolve to one underlying repository, however many spellings of its
    path are configured, no hash occurs twice in the commits returned. *)
Theorem scan_commits_unique (max_diff_chars : nat)
    (truncation_marker : jsstring)
    (open_repository : jsstring -> Scan.OpenResult)
    (paths : list jsstring) (w : Scan.ActivityWindow) (deep : bool) :
  let feed :=
    fst (Scan.aggregate max_diff_chars truncation_marker open_repository
           paths w deep) in
  NoDup (map Scan.key feed)
  /\ (forall i, NoDup (map hash (map Scan.commit (Scan.owned_by i feed))))
  /\ (forall i,
        (forall path r, In path paths ->
           open_repository path = Scan.Opened r -> Scan.identity r = i) ->
        NoDup (map hash
                 (fst (Scan.scan max_diff_chars truncation_marker
                         open_repository paths w deep)))).
Proof.
  intros feed.
  assert (K : NoDup (map Scan.key feed))
    by (subst feed; rewrite fst_aggregate; apply dedup_NoDup).
  split; [exact K | split].
  - intros i. apply (@same_owner_hashes i).
    + intros x Hx. apply owned_by_In in Hx. apply Hx.
    + apply owned_by_keys, K.
  - intros i Hi. rewrite fst_scan. apply (@same_owner_hashes i); [|exact K].
    intros x Hx. apply aggregate_origin in Hx.
    destruct Hx as [path [r [c [Hp [Ho [_ [_ ->]]]]]]].
    exact (Hi path r Hp Ho).
Qed.

Lemma scan_commits_unique_witness :
  Disk.open_repository (lit "/home/dev/project")
  = Disk.open_repository (lit "/home/dev/./project")
  /\ (forall path r, In path Disk.configured ->
        Disk.open_repository path = Scan.Opened r ->
        Scan.identity r = lit "/home/dev/project/.git")
  /\ map hash (fst (Disk.scan true)) = [lit "2c"; lit "1b"]
  /\ NoDup (map hash (fst (Disk.scan true))).
Proof.
  assert (H : forall path r, In path Disk.configured ->
                Disk.open_repository path = Scan.Opened r ->
                Scan.identity r = lit "/home/dev/project/.git").
  { intros path r [<-|[<-|[<-|[]]]] E; vm_compute in E;
      try discriminate; injection E as <-; reflexivity. }
  split; [reflexivity | split; [exact H | split; [reflexivity |]]].
  exact (proj2 (proj2 (scan_commits_unique Disk.max_diff_chars
                         Disk.truncation_marker Disk.open_repository
                         Disk.configured Disk.today true)) _ H).
Defined.

(** ** The diff a consumer receives *)

Lemma gitLine_forwards_diff (g : GitCommit) (d : jsstring) :
  diff g = Some d -> d <> [] ->
  gitLine g
  = Layout.commit_bullet g ++
    LF ++ lit "  Code Diff Summary:" ++ LF ++
    lit "```" ++ LF ++ d ++ LF ++ lit "```".
Proof.
  intros E N. rewrite gitLine_entry.
  unfold Layout.commit_entry, Layout.diff_block. rewrite E.
  destruct d; [congruence | reflexivity].
Qed.

Lemma diffPreview_prefix (g : GitCommit) (d : jsstring) :
  diff g = Some d -> d <> [] ->
  diffPreview g = Some (firstn 150 d ++ lit "...").
Proof.
  intros E N. unfold diffPreview.
  assert (T : diff_truthy g = Some d) by (apply diff_truthy_Some; auto).
  rewrite T. reflexivity.
Qed.

(** C1: a diff summary longer than the configured maximum is attached to
    the commit cut to exactly that many code units followed by the
    truncation marker; the diff of every commit a scan returns is at most
    the maximum plus the marker long; and the consumers are handed that
    attached value: the prompt carries it whole between its code fences,
    the activity list shows a prefix of it. *)
Theorem diff_summary_bounded (max_diff_chars : nat)
    (truncation_marker : jsstring)
    (open_repository : jsstring -> Scan.OpenResult) :
  (forall (r : Scan.Repository) (c : Scan.RepoCommit) (text : jsstring),
     Scan.diff_text (Scan.rc_change c) = Some text ->
     max_diff_chars < length text ->
     diff (Scan.commit
             (Scan.to_commit max_diff_chars truncation_marker r true c))
     = Some (firstn max_diff_chars text ++ truncation_marker)
     /\ length (firstn max_diff_chars text ++ truncation_marker)
        = max_diff_chars + length truncation_marker)
  /\ (forall paths w deep g d,
        In g (fst (Scan.scan max_diff_chars truncation_marker
                     open_repository paths w deep)) ->
        diff g = Some d ->
        length d <= max_diff_chars + length truncation_marker)
  /\ (forall paths w deep g d,
        In g (fst (Scan.scan max_diff_chars truncation_marker
                     open_repository paths w deep)) ->
        diff g = Some d -> d <> [] ->
        gitLine g
        = Layout.commit_bullet g ++
          LF ++ lit "  Code Diff Summary:" ++ LF ++
          lit "```" ++ LF ++ d ++ LF ++ lit "```"
        /\ diffPreview g = Some (firstn 150 d ++ lit "...")).
Proof.
  split; [|split].
  - intros r c text T L.
    destruct (@truncate_long max_diff_chars truncation_marker text L)
      as [E Len].
    cbn [Scan.to_commit Scan.commit diff]. unfold Scan.summarize_diff.
    rewrite T. cbn [option_map]. rewrite E. split; [reflexivity|].
    rewrite <- E. exact Len.
  - intros paths w deep g d Hg Hd. rewrite fst_scan in Hg.
    apply in_map_iff in Hg. destruct Hg as [x [<- Hx]].
    apply aggregate_origin in Hx.
    destruct Hx as [path [r [c [_ [_ [_ [_ ->]]]]]]].
    cbn [Scan.to_commit Scan.commit diff] in Hd.
    destruct deep; [|discriminate].
    exact (summarize_diff_bound _ _ _ Hd).
  - intros paths w deep g d _ Hd N. split.
    + apply gitLine_forwards_diff; assumption.
    + apply diffPreview_prefix; assumption.
Qed.

Lemma diff_summary_bounded_witness :
  Scan.diff_text (Scan.rc_change Disk.morning)
  = Some (lit "- return true; + return verify(token);")
  /\ Disk.max_diff_chars
     < length (lit "- return true; + return verify(token);")
  /\ map diff (fst (Disk.scan true))
     = [Some (lit "binary file changed");
        Some (lit "- return true; + ret[truncated]")]
  /\ Forall (fun g => forall d, diff g = Some d -> length d <= 20 + 11)
       (fst (Disk.scan true)).
Proof.
  split; [reflexivity | split; [vm_compute; lia | split; [reflexivity |]]].
  apply Forall_forall. intros g Hg d Hd.
  exact (proj1 (proj2 (diff_summary_bounded Disk.max_diff_chars
                         Disk.truncation_marker Disk.open_repository))
           Disk.configured Disk.today true g d Hg Hd).
Defined.

(* ===================================================================== *)
(** * Further properties of the component *)
(* ===================================================================== *)

(** ** What a review run leaves behind *)

(** X1: with an API key configured, [handleAiReview] sends one [call_ai]
    request built from the settings and the prompt of the current render
    and never a second one; when it resolves the response becomes the
    stored review, when it rejects the stored review stays and the error is
    shown in one alert; either way the mode is recorded and the loading
    flag is down again at the end. *)
Theorem handleAiReview_outcome (backend : Backend) (s : AppState)
    (mode : ReviewMode) (w : World) :
  api_key (config s) <> [] ->
  let request :=
    {| req_provider := provider (config s);
       req_api_key := api_key (config s);
       req_model := model (config s);
       req_prompt := generatePrompt s mode;
       req_base_url := base_url (config s) |} in
  let w' := snd (handleAiReview backend s mode w) in
  isAiLoading (w_state w') = false
  /\ reviewMode (w_state w') = mode
  /\ match reply_call_ai backend (w_trace w) request with
     | Resolved response =>
         reviewResult (w_state w') = response
         /\ w_trace w' = w_trace w ++ [EInvoke (call_ai request)]
     | Rejected e =>
         reviewResult (w_state w') = reviewResult (w_state w)
         /\ w_trace w'
            = w_trace w ++ [EInvoke (call_ai request);
                            EAlert (lit "AI Action Failed: " ++ e)]
     end.
Proof.
  intros K request w'. subst w'. apply truthy_true in K.
  unfold handleAiReview. rewrite K. cbv beta iota delta [negb].
  fold request. app_steps.
  destruct (reply_call_ai backend _ request) as [response|e]; app_steps.
  - repeat split.
  - rewrite <- app_assoc. repeat split.
Qed.

Lemma handleAiReview_outcome_witness :
  api_key (config Examples.day) <> []
  /\ let w' := snd (handleAiReview Examples.steady Examples.day export
                      Worlds.fresh) in
     isAiLoading (w_state w') = false
     /\ reviewMode (w_state w') = export
     /\ reviewResult (w_state w') = lit "Summary of the day".
Proof.
  assert (K : api_key (config Examples.day) <> []) by discriminate.
  split; [exact K|].
  destruct (handleAiReview_outcome Examples.steady Examples.day export
              Worlds.fresh K) as [L [M [R _]]].
  split; [exact L | split; [exact M | exact R]].
Defined.

(** ** What a sync leaves behind *)

(** X2: with no repository path configured, [handleSyncGit] does not reach
    the back end: it raises one alert and opens the settings tab, and the
    commits on screen stay as they were. *)
Theorem handleSyncGit_without_paths (backend : Backend) (s : AppState)
    (w : World) :
  git_paths (config s) = [] ->
  let w' := snd (handleSyncGit backend s w) in
  w_trace w'
  = w_trace w
    ++ [EAlert (lit "Please configure Git Repo Paths in Settings first.")]
  /\ gitLogs (w_state w') = gitLogs (w_state w)
  /\ activeTab (w_state w') = settings.
Proof.
  intros E w'. subst w'. unfold handleSyncGit. rewrite E.
  cbn [length Nat.eqb]. app_steps. repeat split.
Qed.

Lemma handleSyncGit_without_paths_witness :
  git_paths (config initialState) = []
  /\ let w' := snd (handleSyncGit Examples.steady initialState
                      Worlds.fresh) in
     w_trace w'
     = [EAlert (lit "Please configure Git Repo Paths in Settings first.")]
     /\ activeTab (w_state w') = settings.
Proof.
  split; [reflexivity|].
  destruct (handleSyncGit_without_paths Examples.steady initialState
              Worlds.fresh eq_refl) as [T [_ A]].
  split; [exact T | exact A].
Defined.

(** X3: with paths configured, [handleSyncGit] sends one [scan_git_repos]
    command carrying the configured paths and the deep-analysis flag.
    When it resolves, the commits on screen are replaced by the returned
    ones (nothing of the earlier sync is kept) and the count is announced
    in an alert only under deep analysis; when it rejects, the commits on
    screen stay and the error is shown.  The active tab is not changed. *)
Theorem handleSyncGit_outcome (backend : Backend) (s : AppState)
    (w : World) :
  git_paths (config s) <> [] ->
  let command :=
    scan_git_repos (git_paths (config s)) (deep_analysis (config s)) in
  let w' := snd (handleSyncGit backend s w) in
  activeTab (w_state w') = activeTab (w_state w)
  /\ match reply_scan_git_repos backend (w_trace w)
             (git_paths (config s)) (deep_analysis (config s)) with
     | Resolved commits =>
         gitLogs (w_state w') = commits
         /\ w_trace w'
            = w_trace w ++ EInvoke command ::
              (if deep_analysis (config s)
               then [EAlert (lit "Synced " ++ string_of_nat (length commits)
                             ++ lit " commits with deep analysis.")]
               else [])
     | Rejected e =>
         gitLogs (w_state w') = gitLogs (w_state w)
         /\ w_trace w'
            = w_trace w ++ [EInvoke command;
                            EAlert (lit "Git Sync Failed: " ++ e)]
     end.
Proof.
  intros P command w'. subst w' command. unfold handleSyncGit.
  destruct (git_paths (config s)) as [|p ps] eqn:E; [congruence|].
  cbn [length Nat.eqb]. app_steps.
  destruct (reply_scan_git_repos backend _ _ _) as [commits|e]; app_steps.
  - destruct (deep_analysis (config s)); app_steps.
    + rewrite <- app_assoc. repeat split.
    + repeat split.
  - rewrite <- app_assoc. repeat split.
Qed.

Lemma handleSyncGit_outcome_witness :
  git_paths (config (Disk.state true)) <> []
  /\ let w' :=
       snd (handleSyncGit
              (serving Disk.max_diff_chars Disk.truncation_marker
                 Disk.open_repository Disk.today Examples.steady)
              (Disk.state true) Worlds.fresh) in
     map hash (gitLogs (w_state w')) = [lit "2c"; lit "1b"]
     /\ w_trace w'
        = [EInvoke (scan_git_repos Disk.configured true);
           EAlert (lit "Synced 2 commits with deep analysis.")].
Proof.
  assert (P : git_paths (config (Disk.state true)) <> []) by discriminate.
  split; [exact P|].
  destruct (handleSyncGit_outcome
              (serving Disk.max_diff_chars Disk.truncation_marker
                 Disk.open_repository Disk.today Examples.steady)
              (Disk.state true) Worlds.fresh P) as [_ H].
  cbn [serving reply_scan_git_repos] in H. destruct H as [G T].
  split.
  - rewrite G. reflexivity.
  - rewrite T. reflexivity.
Defined.

(** ** What adding a note leaves behind *)

(** X4: for a note that is not blank, when [save_log] rejects the text in
    the field is kept, the list of notes is untouched and the error is
    shown; when it resolves the field is cleared and the notes are replaced
    by today's notes as the back end returns them, or left as they are
    when that reload fails. *)
Theorem handleAddLog_outcome (backend : Backend) (s : AppState)
    (w : World) :
  blank (newLog s) = false ->
  let w' := snd (handleAddLog backend s w) in
  match reply_save_log backend (w_trace w) (newLog s) (lit "manual") with
  | Rejected e =>
      newLog (w_state w') = newLog (w_state w)
      /\ logs (w_state w') = logs (w_state w)
      /\ w_trace w'
         = w_trace w ++ [EInvoke (save_log (newLog s) (lit "manual"));
                         EAlert (lit "Failed to save log: " ++ e)]
  | Resolved _ =>
      newLog (w_state w') = []
      /\ match reply_get_today_logs backend
                 (w_trace w ++
                  [EInvoke (save_log (newLog s) (lit "manual"))]) with
         | Resolved todayLogs => logs (w_state w') = todayLogs
         | Rejected _ => logs (w_state w') = logs (w_state w)
         end
  end.
Proof.
  intros B w'. subst w'. unfold handleAddLog. rewrite truthy_trim, B.
  cbv beta iota delta [negb]. app_steps.
  destruct (reply_save_log backend _ _ _) as [u|e]; app_steps.
  - destruct (reply_get_today_logs backend _) as [l|e]; app_steps;
      split; reflexivity.
  - rewrite <- app_assoc. repeat split.
Qed.

Lemma handleAddLog_outcome_witness :
  blank (lit "standup notes") = false
  /\ let w' := snd (handleAddLog Examples.steady
                      (Worlds.typing (lit "standup notes"))
                      (run (typeNewLog (lit "standup notes"))
                         Worlds.fresh)) in
     newLog (w_state w') = [] /\ logs (w_state w') = [].
Proof.
  split; [reflexivity|].
  exact (handleAddLog_outcome Examples.steady
           (Worlds.typing (lit "standup notes"))
           (run (typeNewLog (lit "standup notes")) Worlds.fresh) eq_refl).
Defined.

(** ** The cells a handler leaves alone *)

(** X5: whatever the back end replies, adding a note, syncing and reviewing
    never change the settings or the pending repository path; adding a
    note changes neither the commits nor the review, syncing changes
    neither the notes nor the note field nor the review, and reviewing
    changes neither the notes nor the commits nor the note field. *)
Theorem handlers_keep_to_their_cells (backend : Backend) (s : AppState)
    (mode : ReviewMode) (w : World) :
  let added_note := w_state (snd (handleAddLog backend s w)) in
  let synced := w_state (snd (handleSyncGit backend s w)) in
  let reviewed := w_state (snd (handleAiReview backend s mode w)) in
  (config added_note = config (w_state w)
   /\ newGitPath added_note = newGitPath (w_state w)
   /\ gitLogs added_note = gitLogs (w_state w)
   /\ reviewResult added_note = reviewResult (w_state w))
  /\ (config synced = config (w_state w)
      /\ newGitPath synced = newGitPath (w_state w)
      /\ logs synced = logs (w_state w)
      /\ newLog synced = newLog (w_state w)
      /\ reviewResult synced = reviewResult (w_state w))
  /\ (config reviewed = config (w_state w)
      /\ newGitPath reviewed = newGitPath (w_state w)
      /\ logs reviewed = logs (w_state w)
      /\ gitLogs reviewed = gitLogs (w_state w)
      /\ newLog reviewed = newLog (w_state w)).
Proof.
  cbv zeta. split; [|split].
  - unfold handleAddLog.
    destruct (negb (truthy (trim (newLog s)))); app_steps;
      [repeat split|].
    destruct (reply_save_log backend _ _ _) as [u|e]; app_steps;
      [|repeat split].
    destruct (reply_get_today_logs backend _) as [l|e]; app_steps;
      repeat split.
  - unfold handleSyncGit.
    destruct (Nat.eqb _ 0); app_steps; [repeat split|].
    destruct (reply_scan_git_repos backend _ _ _) as [commits|e];
      app_steps; [|repeat split].
    destruct (deep_analysis (config s)); app_steps; repeat split.
  - unfold handleAiReview.
    destruct (negb (truthy (api_key (config s)))); app_steps;
      [repeat split|].
    destruct (reply_call_ai backend _ _) as [response|e]; app_steps;
      repeat split.
Qed.

(** ** Adding and removing repository paths *)

Lemma without_absent (p : jsstring) (l : list jsstring) :
  ~ In p l -> filter (fun q => negb (str_eqb q p)) l = l.
Proof.
  induction l as [|q l IH]; simpl; intros H; [reflexivity|].
  destruct (str_eqb q p) eqn:E.
  - apply str_eqb_eq in E. elim H. left. exact E.
  - simpl. rewrite IH; [reflexivity|]. intros Hin. apply H. right. exact Hin.
Qed.


Lemma world_eta (w : World) :
  {| w_state := w_state w; w_trace := w_trace w |} = w.
Proof. destruct w; reflexivity. Qed.


(** X6: [addGitPath] with a non-empty path that is not yet listed puts it
    at the end of the list, behind the paths already there, and empties
    the field; it sends nothing to the back end (the list is only saved
    with the settings), and pressing [+] again right away does nothing. *)
Theorem addGitPath_appends (w : World) :
  newGitPath (w_state w) <> [] ->
  ~ In (newGitPath (w_state w)) (paths_of w) ->
  let w' := run addGitPath w in
  paths_of w' = paths_of w ++ [newGitPath (w_state w)]
  /\ newGitPath (w_state w') = []
  /\ w_trace w' = w_trace w
  /\ run addGitPath w' = w'.
Proof.
  intros N A w'. subst w'.
  assert (C : truthy (newGitPath (w_state w))
              && negb (includes (git_paths (config (w_state w)))
                         (newGitPath (w_state w))) = true).
  { apply andb_true_iff. split; [apply truthy_true, N|].
    apply negb_true_iff. destruct (includes _ _) eqn:I; [|reflexivity].
    apply includes_In in I. contradiction. }
  unfold run, addGitPath, paths_of. rewrite C.
  app_steps. cbn [truthy andb]. app_steps. repeat split.
Qed.

Lemma addGitPath_appends_witness :
  let w := run (typeGitPath (lit "C:/Work/D")) Worlds.repeated in
  newGitPath (w_state w) <> []
  /\ ~ In (newGitPath (w_state w)) (paths_of w)
  /\ paths_of (run addGitPath w) = [lit "C:/Work/A"; lit "C:/Work/D"]
  /\ newGitPath (w_state (run addGitPath w)) = [].
Proof.
  cbv zeta.
  assert (N : newGitPath (w_state (run (typeGitPath (lit "C:/Work/D"))
                                     Worlds.repeated)) <> [])
    by discriminate.
  assert (A : ~ In (newGitPath (w_state (run (typeGitPath (lit "C:/Work/D"))
                                           Worlds.repeated)))
                (paths_of (run (typeGitPath (lit "C:/Work/D"))
                             Worlds.repeated))).
  { intros [E|[]]. discriminate E. }
  split; [exact N | split; [exact A |]].
  destruct (addGitPath_appends
              (run (typeGitPath (lit "C:/Work/D")) Worlds.repeated) N A)
    as [P [F _]].
  split; [rewrite P; reflexivity | exact F].
Defined.



(** X8: adding a path that was not listed and then removing it gives back
    the list there was before the two actions. *)
Theorem add_then_remove (w : World) :
  newGitPath (w_state w) <> [] ->
  ~ In (newGitPath (w_state w)) (paths_of w) ->
  paths_of (run (fun s => removeGitPath s (newGitPath (w_state w)))
              (run addGitPath w))
  = paths_of w.
Proof.
  intros N A. rewrite paths_of_remove, paths_of_add.
  apply truthy_true in N. rewrite N.
  destruct (includes (paths_of w) (newGitPath (w_state w))) eqn:I.
  - apply includes_In in I. contradiction.
  - simpl. rewrite filter_app. simpl. rewrite str_eqb_refl. simpl.
    rewrite without_absent by exact A. apply app_nil_r.
Qed.

Lemma add_then_remove_witness :
  let w := run (typeGitPath (lit "C:/Work/D")) Worlds.repeated in
  newGitPath (w_state w) = lit "C:/Work/D"
  /\ paths_of w = [lit "C:/Work/A"]
  /\ paths_of (run (fun s => removeGitPath s (lit "C:/Work/D"))
                 (run addGitPath w)) = [lit "C:/Work/A"].
Proof.
  cbv zeta. split; [reflexivity | split; [reflexivity|]].
  apply (add_then_remove
           (run (typeGitPath (lit "C:/Work/D")) Worlds.repeated)).
  - discriminate.
  - intros [E|[]]. discriminate E.
Defined.

(** ** Editing the settings *)

Lemma updateConfig_git_paths_key (value : list jsstring) :
  updateConfig key_git_paths value = updateConfig_git_paths value.
Proof. reflexivity. Qed.






(** ** Pieces of the view *)

(** X11: the diff preview of the activity list is absent exactly for a
    commit whose diff is unset or empty; otherwise it is the first 150
    code units of the diff followed by three dots, so at most 153 code
    units, and the dots are there also when nothing was cut: a diff of at
    most 150 code units is shown whole, followed by the dots. *)
Theorem diffPreview_shape (g : GitCommit) :
  match diff g with
  | Some (c :: d) =>
      diffPreview g = Some (firstn 150 (c :: d) ++ lit "...")
      /\ length (firstn 150 (c :: d) ++ lit "...") <= 153
      /\ (length (c :: d) <= 150 ->
          diffPreview g = Some ((c :: d) ++ lit "..."))
  | _ => diffPreview g = None
  end.
Proof.
  unfold diffPreview, diff_truthy.
  destruct (diff g) as [[|c d]|]; try reflexivity.
  cbn [truthy]. unfold substring0. split; [reflexivity | split].
  - rewrite length_app, length_firstn. change (length (lit "...")) with 3.
    lia.
  - intros L. rewrite firstn_all2 by exact L. reflexivity.
Qed.

Lemma split_space_cons (s : jsstring) :
  exists piece pieces, split_space s = piece :: pieces.
Proof.
  induction s as [|c s [piece [pieces E]]]; simpl.
  - eexists; eexists; reflexivity.
  - destruct (N.eqb c 32); [eexists; eexists; reflexivity|].
    rewrite E. eexists; eexists; reflexivity.
Qed.

Lemma split_space_no_space (s : jsstring) :
  ~ In 32%N s -> split_space s = [s].
Proof.
  induction s as [|c s IH]; simpl; intros H; [reflexivity|].
  destruct (N.eqb c 32) eqn:E.
  - apply N.eqb_eq in E. elim H. left. exact E.
  - rewrite IH; [reflexivity|]. intros Hin. apply H. right. exact Hin.
Qed.

Lemma split_space_at (a b : jsstring) :
  ~ In 32%N a -> split_space (a ++ 32%N :: b) = a :: split_space b.
Proof.
  induction a as [|c a IH]; simpl; intros H; [reflexivity|].
  destruct (N.eqb c 32) eqn:E.
  - apply N.eqb_eq in E. elim H. left. exact E.
  - rewrite IH; [reflexivity|]. intros Hin. apply H. right. exact Hin.
Qed.

Lemma split_space_head (a b : jsstring) :
  ~ In 32%N a ->
  exists more pieces, split_space (a ++ b) = (a ++ more) :: pieces.
Proof.
  induction a as [|c a IH]; simpl; intros H.
  - destruct (split_space_cons b) as [piece [pieces E]].
    exists piece, pieces. exact E.
  - destruct (N.eqb c 32) eqn:E.
    + apply N.eqb_eq in E. elim H. left. exact E.
    + destruct IH as [more [pieces E']].
      { intros Hin. apply H. right. exact Hin. }
      rewrite E'. exists more, pieces. reflexivity.
Qed.

Lemma split_space_two (s : jsstring) :
  In 32%N s -> exists p q pieces, split_space s = p :: q :: pieces.
Proof.
  induction s as [|c s IH]; simpl; intros H; [contradiction|].
  destruct (N.eqb c 32) eqn:E.
  - destruct (split_space_cons s) as [q [pieces E']]. rewrite E'.
    eexists; eexists; eexists; reflexivity.
  - destruct H as [H|H]; [subst c; discriminate E|].
    destruct (IH H) as [p [q [pieces E']]]. rewrite E'.
    eexists; eexists; eexists; reflexivity.
Qed.

(** X12: the time shown next to a note cannot be computed, and rendering
    the note throws, exactly when its time stamp holds no space; for a time
    stamp made of a date without spaces, one space and a time whose first
    five code units hold no space, the time shown is those five code
    units. *)
Theorem timePill_needs_space (l : LogItem) :
  (timePill l = None <-> ~ In 32%N (timestamp l))
  /\ (forall date hhmm rest : jsstring,
        timestamp l = date ++ 32%N :: hhmm ++ rest ->
        ~ In 32%N date -> ~ In 32%N hhmm -> length hhmm = 5 ->
        timePill l = Some hhmm).
Proof.
  unfold timePill. split; [split|].
  - intros H Hin. destruct (@split_space_two _ Hin) as [p [q [ps E]]].
    rewrite E in H. discriminate H.
  - intros H. rewrite (@split_space_no_space _ H). reflexivity.
  - intros date hhmm rest E D T L.
    pose proof (@split_space_at date (hhmm ++ rest) D) as S.
    destruct (@split_space_head hhmm rest T) as [more [pieces E']].
    unfold jsstring, codeunit in *.
    rewrite E, S, E'. cbn [nth_error]. unfold substring0.
    rewrite firstn_app, <- L, firstn_all, Nat.sub_diag. cbn [firstn].
    rewrite app_nil_r. reflexivity.
Qed.

Lemma timePill_needs_space_witness :
  timePill (Examples.note 1 (lit "Fixed login bug")
              (lit "2024-01-01 09:30:00")) = Some (lit "09:30")
  /\ ~ In 32%N (lit "2024-01-01T09:30:00")
  /\ timePill (Examples.note 1 (lit "Fixed login bug")
                 (lit "2024-01-01T09:30:00")) = None.
Proof.
  split; [|split].
  - apply (proj2 (timePill_needs_space
                    (Examples.note 1 (lit "Fixed login bug")
                       (lit "2024-01-01 09:30:00")))
             (lit "2024-01-01") (lit "09:30") (lit ":00")).
    + reflexivity.
    + vm_compute. intuition discriminate.
    + vm_compute. intuition discriminate.
    + reflexivity.
  - vm_compute. intuition discriminate.
  - apply (proj1 (timePill_needs_space
                    (Examples.note 1 (lit "Fixed login bug")
                       (lit "2024-01-01T09:30:00")))).
    vm_compute. intuition discriminate.
Defined.

(** ** What the prompt holds *)

Lemma occurs_refl (x : jsstring) : occurs x x.
Proof. exists [], []. rewrite app_nil_r. reflexivity. Qed.

Lemma occurs_app_l (x a b : jsstring) : occurs x a -> occurs x (a ++ b).
Proof.
  intros [pre [post ->]]. exists pre, (post ++ b).
  rewrite <- !app_assoc. reflexivity.
Qed.

Lemma occurs_app_r (x a b : jsstring) : occurs x b -> occurs x (a ++ b).
Proof.
  intros [pre [post ->]]. exists (a ++ pre), post.
  rewrite <- !app_assoc. reflexivity.
Qed.

Lemma occurs_trans (x y z : jsstring) :
  occurs x y -> occurs y z -> occurs x z.
Proof.
  intros [p1 [q1 ->]] [p2 [q2 ->]]. exists (p2 ++ p1), (q1 ++ q2).
  rewrite <- !app_assoc. reflexivity.
Qed.

Lemma join_cons_more (sep x : jsstring) (l : list jsstring) :
  l <> [] -> join sep (x :: l) = x ++ sep ++ join sep l.
Proof. destruct l; [congruence | reflexivity]. Qed.

Lemma occurs_join (sep x : jsstring) (xs : list jsstring) :
  In x xs -> occurs x (join sep xs).
Proof.
  induction xs as [|y xs IH]; [intros []|].
  intros H. destruct xs as [|z xs].
  - destruct H as [->|[]]. apply occurs_refl.
  - rewrite join_cons_more by discriminate.
    destruct H as [->|H].
    + apply occurs_app_l, occurs_refl.
    + apply occurs_app_r, occurs_app_r, IH, H.
Qed.

(** Finds the part of a right-nested concatenation a hypothesis is about. *)
Ltac find_part :=
  repeat first [ apply occurs_refl
               | apply occurs_app_l; solve [eassumption | apply occurs_refl]
               | apply occurs_app_r ].

Lemma commit_message_in_prompt (s : AppState) (type : ReviewMode)
    (g : GitCommit) :
  In g (gitLogs s) -> occurs (lit "] " ++ message g) (generatePrompt s type).
Proof.
  intros Hg.
  assert (H : occurs (lit "] " ++ message g)
                (join LF (map gitLine (gitLogs s)))).
  { apply occurs_trans with (y := gitLine g).
    - rewrite gitLine_entry. apply occurs_app_l.
      unfold Layout.commit_bullet. find_part.
    - apply occurs_join. apply in_map_iff. exists g. split; auto. }
  unfold generatePrompt. find_part.
Qed.

(** X13: nothing that was logged or synced is left out of the prompt: the
    bullet of every manual log, the message of every commit, the diff of
    every commit that has one (between its code fences) and the user rules
    all occur in the prompt, in either mode. *)
Theorem prompt_mentions_everything (s : AppState) (type : ReviewMode) :
  let prompt := generatePrompt s type in
  (forall l, In l (logs s) -> occurs (lit "- " ++ content l) prompt)
  /\ (forall g, In g (gitLogs s) ->
        occurs (lit "] " ++ message g) prompt
        /\ forall d, diff g = Some d -> d <> [] ->
             occurs (lit "```" ++ LF ++ d ++ LF ++ lit "```") prompt)
  /\ occurs (custom_rules (config s)) prompt.
Proof.
  cbv zeta. unfold generatePrompt. split; [|split].
  - intros l Hl.
    assert (H : occurs (lit "- " ++ content l)
                  (join LF (map logLine (logs s)))).
    { apply occurs_join. apply in_map_iff. exists l. split; auto. }
    find_part.
  - intros g Hg.
    assert (E : occurs (gitLine g) (join LF (map gitLine (gitLogs s)))).
    { apply occurs_join. apply in_map_iff. exists g. split; auto. }
    split.
    + apply (@commit_message_in_prompt s type g Hg).
    + intros d Hd Nd.
      assert (H : occurs (lit "```" ++ LF ++ d ++ LF ++ lit "```")
                    (join LF (map gitLine (gitLogs s)))).
      { apply occurs_trans with (y := gitLine g); [|exact E].
        rewrite (@gitLine_forwards_diff g d Hd Nd). find_part. }
      find_part.
  - find_part.
Qed.

Lemma prompt_mentions_everything_witness :
  In Examples.fix_commit (gitLogs Examples.day)
  /\ diff Examples.fix_commit = Some (lit "+ check(token)")
  /\ occurs (lit "] Fix login bug") (generatePrompt Examples.day analysis)
  /\ occurs (lit "```" ++ LF ++ lit "+ check(token)" ++ LF ++ lit "```")
       (generatePrompt Examples.day analysis).
Proof.
  assert (I : In Examples.fix_commit (gitLogs Examples.day))
    by (left; reflexivity).
  destruct (proj1 (proj2 (prompt_mentions_everything Examples.day analysis))
              Examples.fix_commit I) as [M D].
  split; [exact I | split; [reflexivity | split; [exact M |]]].
  apply D; [reflexivity | discriminate].
Defined.

Lemma bullets_merge (a b : jsstring) (before after : list jsstring) :
  join LF (map Layout.log_bullet
             (before ++ (a ++ LF ++ lit "- " ++ b) :: after))
  = join LF (map Layout.log_bullet (before ++ a :: b :: after)).
Proof.
  induction before as [|p before IH].
  - destruct after as [|q after]; cbn [app map join];
      unfold Layout.log_bullet; rewrite <- ?app_assoc; reflexivity.
  - cbn [app map]. rewrite !join_cons_more.
    + rewrite IH. reflexivity.
    + rewrite map_app. intros H. apply app_eq_nil in H.
      destruct H as [_ H]. discriminate H.
    + rewrite map_app. intros H. apply app_eq_nil in H.
      destruct H as [_ H]. discriminate H.
Qed.

(** X14: the prompt does not tell one log whose text holds a line break
    followed by a bullet mark from two logs: a state in which one note
    reads [a], line break, [- b] and a state in which there are the two
    notes [a] and [b] in its place give the same prompt when the rest of
    the inputs agree. *)
Theorem prompt_merges_log_lines (s1 s2 : AppState) (type : ReviewMode)
    (a b : jsstring) (before after : list jsstring) :
  map content (logs s1)
  = before ++ (a ++ LF ++ lit "- " ++ b) :: after ->
  map content (logs s2) = before ++ a :: b :: after ->
  gitLogs s1 = gitLogs s2 ->
  custom_rules (config s1) = custom_rules (config s2) ->
  report_template (config s1) = report_template (config s2) ->
  generatePrompt s1 type = generatePrompt s2 type.
Proof.
  intros L1 L2 G R T. rewrite !generatePrompt_layout, L1, L2, G, R, T.
  unfold Layout.prompt_layout, Layout.manual_log_section.
  rewrite bullets_merge. reflexivity.
Qed.

Lemma prompt_merges_log_lines_witness :
  map content (logs Notes.joined)
  = [] ++ (lit "Standup" ++ LF ++ lit "- " ++ lit "Lunch") :: []
  /\ map content (logs Notes.apart) = [] ++ lit "Standup" :: lit "Lunch" :: []
  /\ length (logs Notes.joined) <> length (logs Notes.apart)
  /\ generatePrompt Notes.joined export = generatePrompt Notes.apart export.
Proof.
  split; [reflexivity | split; [reflexivity | split; [discriminate|]]].
  apply (@prompt_merges_log_lines Notes.joined Notes.apart export
           (lit "Standup") (lit "Lunch") [] []); reflexivity.
Defined.

(** ** Deleting a note, saving and loading the settings *)

(** Runs the plumbing of a shell closure. *)
Ltac shell_steps :=
  cbv beta iota zeta delta
    [Shell.sbind Shell.sret Shell.effect Shell.invoke_more Shell.confirm
     Shell.lift Shell.run];
  cbn [Shell.sh_state Shell.sh_trace fst snd];
  app_steps;
  cbn [Shell.sh_state Shell.sh_trace fst snd map app].

(** X15: [handleDeleteLog] asks before it deletes.  When the user declines
    the dialog nothing else happens: no command is sent and the state is
    as before.  When the user accepts, one [delete_log] command is sent
    with the id; if it rejects, the error is shown and the state is as
    before; if it resolves, today's notes are fetched again and replace
    the notes on screen, or, should that fetch fail, the notes on screen
    stay. *)
Theorem handleDeleteLog_asks_first (env : Shell.Environment) (id : Z)
    (sw : Shell.ShellWorld) :
  let msg := lit "Delete this log?" in
  let t := Shell.sh_trace sw in
  let sw' := snd (Shell.handleDeleteLog env id sw) in
  if Shell.answer_confirm env t msg then
    match Shell.reply_delete_log env (t ++ [Shell.Confirm msg true]) id with
    | Rejected e =>
        Shell.sh_state sw' = Shell.sh_state sw
        /\ Shell.sh_trace sw'
           = t ++ [Shell.Confirm msg true; Shell.InvokeDeleteLog id;
                   Shell.Base (EAlert (lit "Failed to delete log: " ++ e))]
    | Resolved _ =>
        match reply_get_today_logs
                (Shell.base_backend env
                   (t ++ [Shell.Confirm msg true; Shell.InvokeDeleteLog id]))
                [] with
        | Resolved todayLogs =>
            logs (Shell.sh_state sw') = todayLogs
            /\ Shell.sh_trace sw'
               = t ++ [Shell.Confirm msg true; Shell.InvokeDeleteLog id;
                       Shell.Base (EInvoke get_today_logs)]
        | Rejected e =>
            Shell.sh_state sw' = Shell.sh_state sw
            /\ Shell.sh_trace sw'
               = t ++ [Shell.Confirm msg true; Shell.InvokeDeleteLog id;
                       Shell.Base (EInvoke get_today_logs);
                       Shell.Base (EConsoleError e)]
        end
    end
  else
    Shell.sh_state sw' = Shell.sh_state sw
    /\ Shell.sh_trace sw' = t ++ [Shell.Confirm msg false].
Proof.
  cbv zeta. unfold Shell.handleDeleteLog. shell_steps.
  destruct (Shell.answer_confirm env _ _); cbn [negb]; shell_steps;
    [|split; reflexivity].
  destruct (Shell.reply_delete_log env _ id) as [u|e]; shell_steps.
  - rewrite <- !app_assoc. cbn [app].
    destruct (reply_get_today_logs _ []) as [l|e]; shell_steps;
      rewrite <- ?app_assoc; split; reflexivity.
  - rewrite <- !app_assoc. split; reflexivity.
Qed.





(** ** What the handlers never send *)

Lemma In_added_app (t l : list Event) (e : Event) :
  In e (added t (t ++ l)) <-> In e l.
Proof. rewrite added_app. tauto. Qed.

Lemma handleSyncGit_keeps_config (backend : Backend) (s : AppState)
    (w : World) :
  config (w_state (snd (handleSyncGit backend s w))) = config (w_state w).
Proof.
  unfold handleSyncGit.
  destruct (Nat.eqb _ 0); app_steps; [reflexivity|].
  destruct (reply_scan_git_repos backend _ _ _) as [commits|e];
    app_steps; [|reflexivity].
  destruct (deep_analysis (config s)); app_steps; reflexivity.
Qed.

(** X18: whatever the state and the back end, a run of [handleAiReview]
    never sends a [call_ai] request with an empty API key, and the prompt
    of a request it sends is the prompt of the current render; a run of
    [handleSyncGit] never sends a scan with an empty list of paths, and a
    scan it sends carries the configured paths and flag; a run of
    [handleAddLog] never saves a blank note, and what it saves is the text
    of the field with the log type [manual]. *)
Theorem handlers_send_nothing_empty (backend : Backend) (s : AppState)
    (mode : ReviewMode) (w : World) :
  (forall request,
     In (EInvoke (call_ai request))
        (added (w_trace w)
           (w_trace (snd (handleAiReview backend s mode w)))) ->
     req_api_key request <> []
     /\ req_api_key request = api_key (config s)
     /\ req_prompt request = generatePrompt s mode)
  /\ (forall paths deep,
        In (EInvoke (scan_git_repos paths deep))
           (added (w_trace w) (w_trace (snd (handleSyncGit backend s w)))) ->
        paths <> []
        /\ paths = git_paths (config s)
        /\ deep = deep_analysis (config s))
  /\ (forall content logType,
        In (EInvoke (save_log content logType))
           (added (w_trace w) (w_trace (snd (handleAddLog backend s w)))) ->
        blank content = false
        /\ content = newLog s
        /\ logType = lit "manual").
Proof.
  split; [|split].
  - intros request.
    destruct (api_key (config s)) as [|c k] eqn:K.
    + unfold handleAiReview. rewrite K.
      cbv beta iota delta [negb truthy]. app_steps.
      rewrite In_added_app. intros [H|[]]. discriminate H.
    + assert (N : api_key (config s) <> []) by (rewrite K; discriminate).
      rewrite (@handleAiReview_with_key backend s mode w N), In_added_app.
      rewrite K. intros [H|H].
      * injection H as <-. cbn [req_api_key req_prompt].
        split; [discriminate | split; reflexivity].
      * destruct (reply_call_ai backend _ _); [destruct H|].
        destruct H as [H|[]]. discriminate H.
  - intros paths deep. unfold handleSyncGit.
    destruct (git_paths (config s)) as [|p ps] eqn:P.
    + cbn [length Nat.eqb]. app_steps.
      rewrite In_added_app. intros [H|[]]. discriminate H.
    + cbn [length Nat.eqb]. app_steps.
      destruct (reply_scan_git_repos backend _ _ _) as [commits|e];
        app_steps.
      * destruct (deep_analysis (config s)) eqn:D; app_steps;
          rewrite <- ?app_assoc, In_added_app; cbn [app];
          intros [H|H]; try (injection H as <- <-);
          try (split; [discriminate | split; reflexivity]).
        -- destruct H as [H|[]]. discriminate H.
        -- destruct H.
      * rewrite <- app_assoc, In_added_app. cbn [app].
        intros [H|[H|[]]]; [|discriminate H]. injection H as <- <-.
        split; [discriminate | split; reflexivity].
  - intros content logType.
    destruct (blank (newLog s)) eqn:B.
    + rewrite (@handleAddLog_blank backend s w B). cbn [snd].
      rewrite <- (app_nil_r (w_trace w)) at 2. rewrite In_added_app.
      intros [].
    + rewrite (@handleAddLog_saves backend s w B), In_added_app.
      intros [H|H].
      * injection H as <- <-. split; [exact B | split; reflexivity].
      * destruct (reply_save_log backend _ _ _).
        -- destruct H as [H|H]; [discriminate H|].
           destruct (reply_get_today_logs backend _); [destruct H|].
           destruct H as [H|[]]. discriminate H.
        -- destruct H as [H|[]]. discriminate H.
Qed.

(** X19: the commits a sync brings in reach the next review: after a
    successful [handleSyncGit], [handleAiReview] run from the new render
    with a key configured sends a request whose prompt mentions the
    message of every commit the scan returned. *)
Theorem synced_commits_reach_the_prompt (backend : Backend)
    (mode : ReviewMode) (w : World) (commits : list GitCommit) :
  paths_of w <> [] ->
  api_key (config (w_state w)) <> [] ->
  reply_scan_git_repos backend (w_trace w) (paths_of w)
    (deep_analysis (config (w_state w))) = Resolved commits ->
  let synced := run (handleSyncGit backend) w in
  let reviewed := run (fun s => handleAiReview backend s mode) synced in
  exists request rest,
    w_trace reviewed
    = w_trace synced ++ EInvoke (call_ai request) :: rest
    /\ forall g, In g commits ->
         occurs (lit "] " ++ message g) (req_prompt request).
Proof.
  intros P K R synced reviewed. subst reviewed synced.
  destruct (@handleSyncGit_resolved backend (w_state w) w commits P R)
    as [G _].
  assert (K' : api_key (config (w_state (run (handleSyncGit backend) w)))
               <> []).
  { unfold run. rewrite handleSyncGit_keeps_config. exact K. }
  eexists. eexists. split.
  - unfold run at 1.
    apply (@handleAiReview_with_key backend
             (w_state (run (handleSyncGit backend) w)) mode
             (run (handleSyncGit backend) w) K').
  - intros g Hg. cbn [req_prompt].
    apply commit_message_in_prompt. unfold run. rewrite G. exact Hg.
Qed.

Lemma synced_commits_reach_the_prompt_witness :
  let backend :=
    serving Disk.max_diff_chars Disk.truncation_marker
      Disk.open_repository Disk.today Examples.steady in
  let w := {| w_state := Disk.state true; w_trace := [] |} in
  paths_of w <> []
  /\ api_key (config (w_state w)) <> []
  /\ exists request rest,
       w_trace (run (fun s => handleAiReview backend s analysis)
                  (run (handleSyncGit backend) w))
       = w_trace (run (handleSyncGit backend) w)
         ++ EInvoke (call_ai request) :: rest
       /\ occurs (lit "] Add logo") (req_prompt request)
       /\ occurs (lit "] Fix login bug") (req_prompt request).
Proof.
  cbv zeta.
  assert (P : paths_of {| w_state := Disk.state true; w_trace := [] |}
              <> []) by discriminate.
  assert (K : api_key (config (Disk.state true)) <> []) by discriminate.
  split; [exact P | split; [exact K|]].
  destruct (@synced_commits_reach_the_prompt
              (serving Disk.max_diff_chars Disk.truncation_marker
                 Disk.open_repository Disk.today Examples.steady)
              analysis {| w_state := Disk.state true; w_trace := [] |}
              (fst (Disk.scan true)) P K eq_refl)
    as [request [rest [T M]]].
  exists request, rest. split; [exact T | split].
  - apply (M (nth 0 (fst (Disk.scan true)) Examples.docs_commit)).
    left. reflexivity.
  - apply (M (nth 1 (fst (Disk.scan true)) Examples.docs_commit)).
    right. left. reflexivity.
Defined.


(** ** Instances of the statements above *)


Lemma diffPreview_shape_witness :
  length (lit "+ check(token)") <= 150
  /\ diffPreview Examples.fix_commit = Some (lit "+ check(token)...")
  /\ diffPreview Examples.docs_commit = None.
Proof.
  split; [vm_compute; lia | split].
  - apply (proj2 (proj2 (diffPreview_shape Examples.fix_commit))).
    vm_compute. lia.
  - exact (diffPreview_shape Examples.docs_commit).
Defined.

Lemma handlers_send_nothing_empty_witness :
  let w' := snd (handleAiReview Examples.steady Examples.day export
                   Worlds.fresh) in
  exists request,
    In (EInvoke (call_ai request)) (added (w_trace Worlds.fresh) (w_trace w'))
    /\ req_api_key request = lit "sk-test"
    /\ req_prompt request = generatePrompt Examples.day export.
Proof.
  cbv zeta.
  exists {| req_provider := provider (config Examples.day);
            req_api_key := api_key (config Examples.day);
            req_model := model (config Examples.day);
            req_prompt := generatePrompt Examples.day export;
            req_base_url := base_url (config Examples.day) |}.
  assert (I : In (EInvoke (call_ai
                 {| req_provider := provider (config Examples.day);
                    req_api_key := api_key (config Examples.day);
                    req_model := model (config Examples.day);
                    req_prompt := generatePrompt Examples.day export;
                    req_base_url := base_url (config Examples.day) |}))
                (added (w_trace Worlds.fresh)
                   (w_trace (snd (handleAiReview Examples.steady
                                    Examples.day export Worlds.fresh))))).
  { left. reflexivity. }
  split; [exact I|].
  destruct (proj1 (handlers_send_nothing_empty Examples.steady Examples.day
                     export Worlds.fresh) _ I) as [_ [K P]].
  split; [exact K | exact P].
Defined.
